(** * Dastavez: collaborative document server and presence view

    A shallow embedding of the express/WebSocket server (the REST facade, the
    WebSocket connection handler and the handlers it registers) and of the
    awareness "change" handler of the editor page, with a model of the
    replicated document core that the sources leave to the yjs libraries,
    followed by the properties stated about them.

    JavaScript objects that the server shares between closures (metadata
    records, Y.Doc instances, sockets) live in explicit heaps addressed by
    locations, so that a closure holding a reference keeps seeing the same
    object after the catalogue maps have changed. *)

From stdpp Require Import gmap strings list fin_maps.
From Stdlib Require Import ZArith Ascii.

Local Open Scope string_scope.

(** ** The server *)

Module Server.

(** Heap locations (object identities) and [Date] values (milliseconds). *)
Abbreviation loc := nat (only parsing).
Abbreviation Date := Z (only parsing).

(** The value type of [documentMetadata]. A [title] of [None] is the
    JavaScript [undefined] that a request body without a [title] field
    yields. *)
Record Metadata := mkMetadata {
  title : option string;
  lastModified : Date;
  collaborators : gset string
}.

(** What the server can observe of a [Y.Doc]: whether [destroy()] was called
    on it, and the [docName] captured by each "update" listener the
    connection handler registered on it (in registration order) and that
    [destroy()] has not dropped. Document content belongs to the yjs
    library. *)
Record YDoc := mkYDoc {
  destroyed : bool;
  updateObservers : list string
}.

(** The options object handed to [setupWSConnection]. *)
Inductive SetupCall :=
| SetupWithDoc (docName : string) (doc : loc)
| SetupNameOnly (docName : string).

(** What [setupWSConnection] takes from that object. The repository declares
    the function with the options [docName], [gc] and [awareness]
    ([declare module "y-websocket/bin/utils"]); [doc] is not one of them, so
    of [{ docName, doc: ydoc }] the library is given the name. *)
Definition declaredDocName (c : SetupCall) : string :=
  match c with
  | SetupWithDoc docName _ => docName
  | SetupNameOnly docName => docName
  end.

(** A WebSocket as the handler sees it: the "close" listeners registered on
    it (each closes over the metadata object, the collaborator id and the
    document name), the [setupWSConnection] call that succeeded on it,
    whether the handler called [ws.close()], and whether "close" fired. *)
Record Socket := mkSocket {
  closeHandlers : list (loc * string * string);
  setupDone : option SetupCall;
  closeCalled : bool;
  closeEmitted : bool
}.

Inductive LogLine :=
| LogNewConnection (docName : string)
| LogUserLeft (docName : string)
| LogSetupError.

Record State := mkState {
  documents : gmap string loc;
  documentMetadata : gmap string loc;
  ydocs : gmap loc YDoc;
  metas : gmap loc Metadata;
  sockets : gmap loc Socket;
  console : list LogLine;
  nextLoc : loc
}.

Definition initial : State :=
  mkState ∅ ∅ ∅ ∅ ∅ [] 0.

(** *** Field updates *)

Definition set_documents (f : gmap string loc → gmap string loc) (s : State) : State :=
  mkState (f (documents s)) (documentMetadata s) (ydocs s) (metas s)
          (sockets s) (console s) (nextLoc s).

Definition set_documentMetadata (f : gmap string loc → gmap string loc) (s : State) : State :=
  mkState (documents s) (f (documentMetadata s)) (ydocs s) (metas s)
          (sockets s) (console s) (nextLoc s).

Definition set_ydocs (f : gmap loc YDoc → gmap loc YDoc) (s : State) : State :=
  mkState (documents s) (documentMetadata s) (f (ydocs s)) (metas s)
          (sockets s) (console s) (nextLoc s).

Definition set_metas (f : gmap loc Metadata → gmap loc Metadata) (s : State) : State :=
  mkState (documents s) (documentMetadata s) (ydocs s) (f (metas s))
          (sockets s) (console s) (nextLoc s).

Definition set_sockets (f : gmap loc Socket → gmap loc Socket) (s : State) : State :=
  mkState (documents s) (documentMetadata s) (ydocs s) (metas s)
          (f (sockets s)) (console s) (nextLoc s).

Definition log (l : LogLine) (s : State) : State :=
  mkState (documents s) (documentMetadata s) (ydocs s) (metas s)
          (sockets s) (console s ++ [l]) (nextLoc s).

Definition bump (s : State) : State :=
  mkState (documents s) (documentMetadata s) (ydocs s) (metas s)
          (sockets s) (console s) (S (nextLoc s)).

(** *** Object allocation *)

(** [new Y.Doc()] *)
Definition newYDoc (s : State) : loc * State :=
  (nextLoc s, bump (set_ydocs <[nextLoc s := mkYDoc false []]> s)).

(** The object literal [{ title, lastModified: new Date(), collaborators: new Set() }] *)
Definition newMetadata (t : option string) (now : Date) (s : State) : loc * State :=
  (nextLoc s, bump (set_metas <[nextLoc s := mkMetadata t now ∅]> s)).

(** The socket object the WebSocket server passes to the "connection"
    listener. *)
Definition newSocket (s : State) : loc * State :=
  (nextLoc s, bump (set_sockets <[nextLoc s := mkSocket [] None false false]> s)).

(** *** Mutation of heap objects *)

Definition setTitle (t : option string) (m : Metadata) : Metadata :=
  mkMetadata t (lastModified m) (collaborators m).

Definition setLastModified (now : Date) (m : Metadata) : Metadata :=
  mkMetadata (title m) now (collaborators m).

Definition addCollaborator (c : string) (m : Metadata) : Metadata :=
  mkMetadata (title m) (lastModified m) ({[c]} ∪ collaborators m).

Definition deleteCollaborator (c : string) (m : Metadata) : Metadata :=
  mkMetadata (title m) (lastModified m) (collaborators m ∖ {[c]}).

(** [ydoc.destroy()]: the object is marked destroyed and its listeners are
    dropped. *)
Definition destroy (d : YDoc) : YDoc :=
  mkYDoc true [].

Definition onUpdate (docName : string) (d : YDoc) : YDoc :=
  mkYDoc (destroyed d) (updateObservers d ++ [docName]).

Definition onClose (h : loc * string * string) (w : Socket) : Socket :=
  mkSocket (closeHandlers w ++ [h]) (setupDone w) (closeCalled w) (closeEmitted w).

Definition markSetup (c : SetupCall) (w : Socket) : Socket :=
  mkSocket (closeHandlers w) (Some c) (closeCalled w) (closeEmitted w).

Definition close (w : Socket) : Socket :=
  mkSocket (closeHandlers w) (setupDone w) true (closeEmitted w).

Definition emitClose (w : Socket) : Socket :=
  mkSocket (closeHandlers w) (setupDone w) (closeCalled w) true.

(** *** REST facade *)

Record DocInfo := mkDocInfo {
  info_id : string;
  info_title : option string;
  info_lastModified : Date;
  info_collaboratorCount : nat
}.

Inductive Response :=
| RDocuments (docs : list DocInfo)
| RDocument (doc : DocInfo)
| RCreated (id : string) (t : option string) (url : string)
| RSuccess
| RHealth (timestamp : Date) (count : nat) (uptime : Z)
| RNotFound.

(** HTTP status of a response: only "Document not found" sets one. *)
Definition status (r : Response) : nat :=
  match r with
  | RNotFound => 404
  | _ => 200
  end.

(** [documentMetadata.get(docId)]: the metadata object stored for [docId]. *)
Definition metadataOf (s : State) (docId : string) : option Metadata :=
  m ← documentMetadata s !! docId; metas s !! m.

Definition infoOf (docId : string) (m : Metadata) : DocInfo :=
  mkDocInfo docId (title m) (lastModified m) (size (collaborators m)).

(** GET /api/documents. The listing follows the keys of the map; the
    insertion order JavaScript iterates in is not modelled. *)
Definition getDocuments (s : State) : State * Response :=
  (s, RDocuments
        (omap (λ e : string * loc, infoOf e.1 <$> metas s !! e.2)
              (map_to_list (documentMetadata s)))).

(** GET /api/documents/:docId *)
Definition getDocument (docId : string) (s : State) : State * Response :=
  match metadataOf s docId with
  | None => (s, RNotFound)
  | Some metadata => (s, RDocument (infoOf docId metadata))
  end.

(** POST /api/documents. [docId] is the value [uuidv4()] returned and
    [bodyTitle] the [title] field of the body ([None] when absent, which is
    when the default applies). *)
Definition postDocument (docId : string) (bodyTitle : option string)
    (protocol host : string) (now : Date) (s : State) : State * Response :=
  let t := default "Untitled Document" bodyTitle in
  let '(ydoc, s) := newYDoc s in
  let s := set_documents <[docId := ydoc]> s in
  let '(metadata, s) := newMetadata (Some t) now s in
  let s := set_documentMetadata <[docId := metadata]> s in
  (s, RCreated docId (Some t) (protocol ++ "://" ++ host ++ "/doc/" ++ docId)).

(** PUT /api/documents/:docId/title *)
Definition putTitle (docId : string) (t : option string) (now : Date)
    (s : State) : State * Response :=
  match documentMetadata s !! docId with
  | None => (s, RNotFound)
  | Some metadata =>
      let s := set_metas (alter (setTitle t) metadata) s in
      let s := set_metas (alter (setLastModified now) metadata) s in
      (s, RSuccess)
  end.

(** DELETE /api/documents/:docId *)
Definition deleteDocument (docId : string) (s : State) : State * Response :=
  match documents s !! docId with
  | None => (s, RNotFound)
  | Some ydoc =>
      let s := set_ydocs (alter destroy ydoc) s in
      let s := set_documents (delete docId) s in
      let s := set_documentMetadata (delete docId) s in
      (s, RSuccess)
  end.

(** GET /health *)
Definition getHealth (now : Date) (uptime : Z) (s : State) : State * Response :=
  (s, RHealth now (size (documents s)) uptime).

(** *** WebSocket connections *)

(** [url.slice(1)] *)
Definition slice1 (url : string) : string :=
  match url with
  | EmptyString => EmptyString
  | String _ rest => rest
  end.

(** [path.split("?")[0]] *)
Fixpoint beforeQuery (path : string) : string :=
  match path with
  | EmptyString => EmptyString
  | String c rest =>
      if Ascii.eqb c "?"%char then EmptyString else String c (beforeQuery rest)
  end.

(** [(req.url || "").slice(1).split("?")[0] || "default-room"] *)
Definition docNameOf (reqUrl : option string) : string :=
  let url := default "" reqUrl in
  let name := beforeQuery (slice1 url) in
  if decide (name = "") then "default-room" else name.

(** The [catch] block around the sync setup. *)
Definition setupFailed (ws : loc) (s : State) : State :=
  set_sockets (alter close ws) (log LogSetupError s).

(** "Ensure document exists": the first block of the connection listener. *)
Definition ensureDocument (docName : string) (now : Date) (s : State) : State :=
  match documents s !! docName with
  | Some _ => s
  | None =>
      let '(ydoc, s) := newYDoc s in
      let s := set_documents <[docName := ydoc]> s in
      (* Initialize metadata if it doesn't exist *)
      match documentMetadata s !! docName with
      | Some _ => s
      | None =>
          let '(metadata, s) := newMetadata (Some "Untitled Document") now s in
          set_documentMetadata <[docName := metadata]> s
      end
  end.

(** "Add to collaborators": the second block. The close listener keeps the
    metadata object it was given, not the name. *)
Definition joinCollaborators (ws : loc) (docName collaboratorId : string)
    (s : State) : State :=
  match documentMetadata s !! docName with
  | Some metadata =>
      let s := set_metas (alter (addCollaborator collaboratorId) metadata) s in
      set_sockets (alter (onClose (metadata, collaboratorId, docName)) ws) s
  | None => s
  end.

(** "Set up Y.js WebSocket connection": the [try] block and its [catch].
    [setupThrows] tells whether the library's [setupWSConnection] raises. *)
Definition setupSync (ws : loc) (docName : string) (setupThrows : bool)
    (s : State) : State :=
  match documents s !! docName with
  | Some ydoc =>
      if setupThrows then setupFailed ws s
      else
        let s := set_sockets (alter (markSetup (SetupWithDoc docName ydoc)) ws) s in
        set_ydocs (alter (onUpdate docName) ydoc) s
  | None =>
      if setupThrows then setupFailed ws s
      else set_sockets (alter (markSetup (SetupNameOnly docName)) ws) s
  end.

(** The "connection" listener of the WebSocket server. [collaboratorId] is
    the value [uuidv4()] returns when it is called. The result carries the
    socket the listener ran for. *)
Definition connection (reqUrl : option string) (collaboratorId : string)
    (now : Date) (setupThrows : bool) (s : State) : State * loc :=
  let '(ws, s) := newSocket s in
  let docName := docNameOf reqUrl in
  let s := log (LogNewConnection docName) s in
  let s := ensureDocument docName now s in
  let s := joinCollaborators ws docName collaboratorId s in
  let s := setupSync ws docName setupThrows s in
  (s, ws).

(** The listener registered with [ws.on("close", ...)]. *)
Definition closeListener (s : State) (h : loc * string * string) : State :=
  let '(metadata, collaboratorId, docName) := h in
  log (LogUserLeft docName)
      (set_metas (alter (deleteCollaborator collaboratorId) metadata) s).

(** The socket [ws] emits "close" (at most once). *)
Definition socketClosed (ws : loc) (s : State) : State :=
  match sockets s !! ws with
  | Some w =>
      if closeEmitted w then s
      else foldl closeListener (set_sockets (alter emitClose ws) s) (closeHandlers w)
  | None => s
  end.

(** The listener registered with [ydoc.on("update", ...)]; it looks the
    metadata up again by name. *)
Definition updateListener (now : Date) (s : State) (docName : string) : State :=
  match documentMetadata s !! docName with
  | Some metadata => set_metas (alter (setLastModified now) metadata) s
  | None => s
  end.

(** The Y.Doc object [ydoc] emits "update" (the library applied a delta to
    it): every listener registered on it runs. One instant [now] stands for
    the [new Date()] of each listener. *)
Definition docUpdated (ydoc : loc) (now : Date) (s : State) : State :=
  match ydocs s !! ydoc with
  | Some d => foldl (updateListener now) s (updateObservers d)
  | None => s
  end.

(** *** The server as a transition system *)

(** [YDocUpdate] is the "update" event of a Y.Doc object the server created;
    the other events are what the server receives from outside. *)
Inductive Event :=
| GetDocuments
| GetDocument (docId : string)
| PostDocument (uuid : string) (bodyTitle : option string)
               (protocol host : string) (now : Date)
| PutTitle (docId : string) (t : option string) (now : Date)
| DeleteDocument (docId : string)
| GetHealth (now : Date) (uptime : Z)
| WsMessage (ws : loc) (now : Date)
| WsConnection (reqUrl : option string) (uuid : string) (now : Date)
               (setupThrows : bool)
| WsClose (ws : loc)
| YDocUpdate (ydoc : loc) (now : Date).

Inductive Output :=
| Http (r : Response)
| Accepted (ws : loc)
| ToLibrary (docName : string)
| Silent.

(** A client sends a message (a content delta, say) on the socket [ws]. The
    server's code registers no "message" listener: the only listener is the
    one the library installed in [setupWSConnection], if that call returned,
    and it works on the document the library keeps for the name it was
    given. None of the objects the server holds is handed to it, so none of
    them changes and no Y.Doc of [documents] emits "update". *)
Definition socketMessage (ws : loc) (s : State) : State * Output :=
  match sockets s !! ws with
  | Some w =>
      if closeEmitted w then (s, Silent)
      else
        match setupDone w with
        | Some c => (s, ToLibrary (declaredDocName c))
        | None => (s, Silent)
        end
  | None => (s, Silent)
  end.

Definition step (s : State) (e : Event) : State * Output :=
  match e with
  | GetDocuments => prod_map id Http (getDocuments s)
  | GetDocument docId => prod_map id Http (getDocument docId s)
  | PostDocument uuid t protocol host now =>
      prod_map id Http (postDocument uuid t protocol host now s)
  | PutTitle docId t now => prod_map id Http (putTitle docId t now s)
  | DeleteDocument docId => prod_map id Http (deleteDocument docId s)
  | GetHealth now uptime => prod_map id Http (getHealth now uptime s)
  | WsMessage ws now => socketMessage ws s
  | WsConnection reqUrl uuid now setupThrows =>
      prod_map id Accepted (connection reqUrl uuid now setupThrows s)
  | WsClose ws => (socketClosed ws s, Silent)
  | YDocUpdate ydoc now => (docUpdated ydoc now s, Silent)
  end.

Definition next (s : State) (e : Event) : State := (step s e).1.

Definition run (s : State) (evs : list Event) : State := foldl next s evs.

Definition reachable (s : State) : Prop := ∃ evs, s = run initial evs.

(** *** Observations *)

(** The state after a fresh Y.Doc and a fresh metadata object were stored
    under one name, which POST and the connection listener both do; used to
    state what those two leave behind. *)
Definition createDocument (docId : string) (t : option string) (now : Date)
    (s : State) : State :=
  let '(ydoc, s) := newYDoc s in
  let s := set_documents <[docId := ydoc]> s in
  let '(metadata, s) := newMetadata t now s in
  set_documentMetadata <[docId := metadata]> s.

(** The count GET /api/documents and GET /api/documents/:docId report. *)
Definition collaboratorCount (s : State) (docId : string) : option nat :=
  (λ m, size (collaborators m)) <$> metadataOf s docId.

Definition titleOf (s : State) (docId : string) : option (option string) :=
  title <$> metadataOf s docId.

Definition lastModifiedOf (s : State) (docId : string) : option Date :=
  lastModified <$> metadataOf s docId.

(** [uuidv4()] does not return a value that is in use: a new document id is
    not a stored document, a new collaborator id is in no collaborator set
    and in no close listener. *)
Definition freshCollaborator (s : State) (c : string) : Prop :=
  map_Forall (λ _ o, c ∉ collaborators o) (metas s)
  ∧ map_Forall (λ _ w, Forall (λ h, h.1.2 ≠ c) (closeHandlers w)) (sockets s).

#[global] Instance freshCollaborator_dec s c : Decision (freshCollaborator s c).
Proof. unfold freshCollaborator. apply _. Defined.

Definition uuidFresh (s : State) (e : Event) : Prop :=
  match e with
  | PostDocument uuid _ _ _ _ =>
      documents s !! uuid = None ∧ documentMetadata s !! uuid = None
  | WsConnection _ uuid _ _ => freshCollaborator s uuid
  | _ => True
  end.

(** The connection behind socket [ws] is counted for [docName] under the
    collaborator id [c]: its single close listener refers to the metadata
    object the name maps to, "close" has not fired, [c] is in that object's
    collaborator set, and no other socket's listener carries [c]. *)
Definition counted (s : State) (ws : loc) (docName c : string) : Prop :=
  ∃ m w o,
    documentMetadata s !! docName = Some m
    ∧ sockets s !! ws = Some w
    ∧ closeEmitted w = false
    ∧ closeHandlers w = [(m, c, docName)]
    ∧ metas s !! m = Some o
    ∧ c ∈ collaborators o
    ∧ ∀ ws' w' h, ws' ≠ ws → sockets s !! ws' = Some w' →
                  h ∈ closeHandlers w' → h.1.2 ≠ c.

(** A run during which the connection behind [ws] stays open and the
    document [docName] is not deleted, every [uuidv4()] value being fresh. *)
Fixpoint undisturbed (ws : loc) (docName : string) (s : State)
    (evs : list Event) : Prop :=
  match evs with
  | [] => True
  | e :: evs =>
      uuidFresh s e ∧ e ≠ DeleteDocument docName ∧ e ≠ WsClose ws
      ∧ undisturbed ws docName (next s e) evs
  end.

(** A run of what the server receives from outside (requests, connections,
    messages and close events) that neither deletes the document [docId] nor
    puts a title on it, every [uuidv4()] value being fresh. *)
Fixpoint untouched (docId : string) (s : State) (evs : list Event) : Prop :=
  match evs with
  | [] => True
  | e :: evs =>
      uuidFresh s e
      ∧ e ≠ DeleteDocument docId
      ∧ (∀ t now, e ≠ PutTitle docId t now)
      ∧ (∀ d now, e ≠ YDocUpdate d now)
      ∧ untouched docId (next s e) evs
  end.

(** Structural well-formedness of the heaps and catalogue maps. *)
Record wf (s : State) : Prop := mkWf {
  wf_dom : dom (documents s) = dom (documentMetadata s);
  wf_docs : ∀ docId d, documents s !! docId = Some d → is_Some (ydocs s !! d);
  wf_meta : ∀ docId m, documentMetadata s !! docId = Some m → is_Some (metas s !! m);
  wf_meta_inj : ∀ a b m,
      documentMetadata s !! a = Some m → documentMetadata s !! b = Some m → a = b;
  wf_ydocs_lt : ∀ d, is_Some (ydocs s !! d) → d < nextLoc s;
  wf_metas_lt : ∀ m, is_Some (metas s !! m) → m < nextLoc s;
  wf_sockets_lt : ∀ w, is_Some (sockets s !! w) → w < nextLoc s
}.

(** The entries of the answer to GET /api/documents. *)
Definition listed (s : State) : list DocInfo :=
  match (getDocuments s).2 with
  | RDocuments docs => docs
  | _ => []
  end.

(** Every collaborator id stored in a metadata object is carried by the
    close listener of a socket whose "close" has not fired yet. *)
Definition accounted (s : State) : Prop :=
  ∀ m o c, metas s !! m = Some o → c ∈ collaborators o →
    ∃ ws w docName, sockets s !! ws = Some w ∧ closeEmitted w = false
                    ∧ (m, c, docName) ∈ closeHandlers w.

(** The number of sockets whose "close" event has not fired. *)
Definition openSockets (s : State) : nat :=
  size (filter (λ p : loc * Socket, closeEmitted p.2 = false) (sockets s)).

End Server.

(** ** The presence view of the editor page *)

Module Presence.

(** The [user] field a client publishes, and its [cursor] field. *)
Record User := mkUser {
  name : string;
  color : string
}.

Record Cursor := mkCursor {
  anchor : nat
}.

(** An awareness state as the handler reads it: [state.user] may be missing
    and so may [state.cursor]. *)
Record AwarenessState := mkAwarenessState {
  user : option User;
  cursor : option Cursor
}.

(** [interface ConnectedUser] *)
Record ConnectedUser := mkConnectedUser {
  cu_name : string;
  cu_color : string;
  cu_cursor : option nat
}.

(** The two pieces of React state the handler sets. *)
Record View := mkView {
  connectedUsers : gmap nat ConnectedUser;
  userCount : nat
}.

(** The body of [states.forEach((state, clientId) => ...)] acting on the
    [users] map being built; [self] is [provider.awareness.clientID]. *)
Definition visit (self : nat) (clientId : nat) (state : AwarenessState)
    (users : gmap nat ConnectedUser) : gmap nat ConnectedUser :=
  match user state with
  | Some u =>
      if decide (clientId ≠ self)
      then <[clientId := mkConnectedUser (name u) (color u) (anchor <$> cursor state)]> users
      else users
  | None => users
  end.

(** The awareness "change" listener: [states] is what
    [provider.awareness.getStates()] returns, [prev] the React state before.
    The new state does not depend on [prev]. *)
Definition onChange (self : nat) (states : gmap nat AwarenessState)
    (prev : View) : View :=
  let users := map_fold (visit self) ∅ states in
  mkView users (size states).

(** The entries the page renders avatars from, by session. *)
Definition presenceEntries (v : View) : list (nat * ConnectedUser) :=
  map_to_list (connectedUsers v).

(** The entry the listener derives from one awareness state. *)
Definition entryOf (self clientId : nat) (state : AwarenessState)
    : option ConnectedUser :=
  match user state with
  | Some u =>
      if decide (clientId ≠ self)
      then Some (mkConnectedUser (name u) (color u) (anchor <$> cursor state))
      else None
  | None => None
  end.

(** Modelled from the spec: the presence channel of section 4.5, which the
    awareness protocol library implements and the sources only call.
    [publish] overwrites the record of a session and notes when it was
    refreshed, [expire] removes it, and [sweep] expires every session that
    was not refreshed within the liveness window. *)
Record Live := mkLive {
  record : AwarenessState;
  refreshed : Z
}.

Definition publish (sessionId : nat) (r : AwarenessState) (now : Z)
    (aw : gmap nat Live) : gmap nat Live :=
  <[sessionId := mkLive r now]> aw.

Definition expire (sessionId : nat) (aw : gmap nat Live) : gmap nat Live :=
  delete sessionId aw.

Definition sweep (window now : Z) (aw : gmap nat Live) : gmap nat Live :=
  filter (λ e : nat * Live, (now - refreshed e.2 < window)%Z) aw.

Definition getStates (aw : gmap nat Live) : gmap nat AwarenessState :=
  record <$> aw.

(** *** The rest of the page *)

(** [window.location.pathname.slice(1) || "default-room"], the room the
    Home component joins. *)
Definition roomNameOf (pathname : string) : string :=
  let room := Server.slice1 pathname in
  if decide (room = "") then "default-room" else room.

(** The body of [states.forEach] in the Editor component, which pushes onto
    an array instead of setting a map entry. *)
Definition visitPush (self : nat) (clientId : nat) (state : AwarenessState)
    (users : list ConnectedUser) : list ConnectedUser :=
  match user state with
  | Some u =>
      if decide (clientId ≠ self)
      then users ++ [mkConnectedUser (name u) (color u) (anchor <$> cursor state)]
      else users
  | None => users
  end.

(** The awareness "change" listener of the Editor component: the array it
    hands to [onUsersChange]. The order in which JavaScript visits the
    states is not modelled. *)
Definition onChangeEditor (self : nat) (states : gmap nat AwarenessState)
    : list ConnectedUser :=
  map_fold (visitPush self) [] states.

(** The header of the Home component: the avatars drawn for
    [Array.from(connectedUsers.values()).slice(0, 3)] and the number on the
    "+N" badge, drawn when [connectedUsers.size > 3]. Which three users come
    first follows the keys here, the insertion order in JavaScript. *)
Definition avatars (v : View) : list ConnectedUser :=
  take 3 (map_to_list (connectedUsers v)).*2.

Definition badge (v : View) : option nat :=
  if decide (3 < size (connectedUsers v)) then Some (size (connectedUsers v) - 3)
  else None.

End Presence.

(** ** The replicated document core *)

Module Replica.

(** Modelled from the spec: the replicated sequence store and merge engine of
    sections 3, 4.2, 4.3 and 7. The sources hold no code for them: they
    create [Y.Doc] objects and pass them to [setupWSConnection], which they
    declare and import from the yjs libraries. Everything in this module
    follows the words of the spec. *)

(** A content-item identifier [(originReplicaId, localCounter)], and the
    key [(logical timestamp, replicaId)] of the last-writer-wins rule. *)
Abbreviation Id := (nat * nat)%type (only parsing).
Abbreviation Stamp := (nat * nat)%type (only parsing).

Inductive Mark := Bold | Italic | Underline | Code.
Inductive BlockAttr := HeadingLevel | Alignment.

#[global] Instance Mark_eq_dec : EqDecision Mark.
Proof. solve_decision. Defined.
#[global] Instance BlockAttr_eq_dec : EqDecision BlockAttr.
Proof. solve_decision. Defined.

#[global] Instance Mark_countable : Countable Mark.
Proof.
  refine (inj_countable'
            (λ m, match m with Bold => 0 | Italic => 1 | Underline => 2 | Code => 3 end)
            (λ n, match n with 0 => Bold | 1 => Italic | 2 => Underline | _ => Code end)
            _).
  by intros [].
Defined.
#[global] Instance BlockAttr_countable : Countable BlockAttr.
Proof.
  refine (inj_countable'
            (λ a, match a with HeadingLevel => 0 | Alignment => 1 end)
            (λ n, match n with 0 => HeadingLevel | _ => Alignment end)
            _).
  by intros [].
Defined.

(** A content item: the origin is the identifier of the item to its left
    when it was created, [None] being the start sentinel; the marks and
    block attributes are those in effect at its position when it was
    created. The tombstone flag lives in the store. *)
Record Item := mkItem {
  origin : option Id;
  content : string;
  createdMarks : list Mark;
  createdAttrs : list (BlockAttr * nat)
}.

#[global] Instance Item_eq_dec : EqDecision Item.
Proof. solve_decision. Defined.

(** What an update record is made of: item creations, tombstone markings and
    mark or block-attribute changes, each addressed by identifier. *)
Inductive Op :=
| Insert (id : Id) (item : Item)
| Delete (id : Id)
| SetMark (id : Id) (mark : Mark) (stamp : Stamp) (on : bool)
| SetBlockAttr (blockId : Id) (attr : BlockAttr) (stamp : Stamp) (value : nat).

#[global] Instance Op_eq_dec : EqDecision Op.
Proof. solve_decision. Defined.

Abbreviation UpdateRecord := (list Op) (only parsing).

(** The store. Tombstones are kept beside the items, so that a deletion
    delivered before the insertion it refers to is not lost; deletion never
    removes an item. *)
Record Store := mkStore {
  items : gmap Id Item;
  tombstones : gset Id;
  marks : gmap (Id * Mark) (Stamp * bool);
  blockAttrs : gmap (Id * BlockAttr) (Stamp * nat)
}.

Definition emptyStore : Store := mkStore ∅ ∅ ∅ ∅.

(** Lexicographic comparison of pairs of numbers, used for stamps and for
    identifiers. *)
Definition pairLtb (a b : nat * nat) : bool :=
  Nat.ltb a.1 b.1 || (Nat.eqb a.1 b.1 && Nat.ltb a.2 b.2).

(** The last-writer-wins register map: a write replaces the stored value
    only when its stamp is greater than the stored stamp. *)
Definition winner {V} (stamp : Stamp) (v : V) (cur : option (Stamp * V))
    : Stamp * V :=
  match cur with
  | Some (stamp', v') => if pairLtb stamp' stamp then (stamp, v) else (stamp', v')
  | None => (stamp, v)
  end.

Definition lwwPut `{Countable K} {V} (k : K) (stamp : Stamp) (v : V)
    (m : gmap K (Stamp * V)) : gmap K (Stamp * V) :=
  <[k := winner stamp v (m !! k)]> m.

Definition applyOp (s : Store) (o : Op) : Store :=
  match o with
  | Insert id item =>
      match items s !! id with
      | Some _ => s
      | None => mkStore (<[id := item]> (items s)) (tombstones s) (marks s) (blockAttrs s)
      end
  | Delete id =>
      mkStore (items s) ({[id]} ∪ tombstones s) (marks s) (blockAttrs s)
  | SetMark id mark stamp on =>
      mkStore (items s) (tombstones s) (lwwPut (id, mark) stamp on (marks s))
              (blockAttrs s)
  | SetBlockAttr blockId attr stamp value =>
      mkStore (items s) (tombstones s) (marks s)
              (lwwPut (blockId, attr) stamp value (blockAttrs s))
  end.

(** [applyRemote(record)], and the delivery of a sequence of records. *)
Definition applyRemote (s : Store) (r : UpdateRecord) : Store :=
  foldl applyOp s r.

Definition deliver (s : Store) (rs : list UpdateRecord) : Store :=
  foldl applyRemote s rs.

(** *** Materialization *)

(** The anchor an item hangs from: its origin when that item is in the
    store (tombstoned or not), the start sentinel otherwise. *)
Definition anchorOf (s : Store) (item : Item) : option Id :=
  match origin item with
  | Some a => if decide (is_Some (items s !! a)) then Some a else None
  | None => None
  end.

(** Items with the same anchor are ordered by identifier, greater first, so
    a replica's later insertion at a position precedes its earlier one. *)
Fixpoint insertId (x : Id) (l : list Id) : list Id :=
  match l with
  | [] => [x]
  | y :: r => if pairLtb y x then x :: l else y :: insertId x r
  end.

Definition sortIds (l : list Id) : list Id := foldr insertId [] l.

Definition childrenOf (s : Store) (parent : option Id) : list Id :=
  sortIds (filter (λ e : Id * Item, anchorOf s e.2 = parent)
                  (map_to_list (items s))).*1.

(** Pre-order walk of the origin forest; [fuel] bounds its depth. *)
Fixpoint walk (fuel : nat) (s : Store) (parent : option Id) : list Id :=
  match fuel with
  | 0 => []
  | S fuel => childrenOf s parent ≫= λ id, id :: walk fuel s (Some id)
  end.

Record Rendered := mkRendered {
  r_id : Id;
  r_content : string;
  r_marks : list Mark;
  r_attrs : list (BlockAttr * nat)
}.

(** A mark is active when the last write for it says so, or, no write
    having been made, when the item was created with it. *)
Definition markOn (s : Store) (id : Id) (item : Item) (mark : Mark) : bool :=
  match marks s !! (id, mark) with
  | Some (_, on) => on
  | None => bool_decide (mark ∈ createdMarks item)
  end.

Definition activeMarks (s : Store) (id : Id) (item : Item) : list Mark :=
  filter (λ mark, markOn s id item mark = true) [Bold; Italic; Underline; Code].

Definition attrOf (s : Store) (id : Id) (item : Item) (attr : BlockAttr)
    : option (BlockAttr * nat) :=
  match blockAttrs s !! (id, attr) with
  | Some (_, value) => Some (attr, value)
  | None => snd <$> list_find (λ e : BlockAttr * nat, e.1 = attr) (createdAttrs item)
  end.

Definition attrsOf (s : Store) (id : Id) (item : Item) : list (BlockAttr * nat) :=
  omap (attrOf s id item) [HeadingLevel; Alignment].

(** [materialize()]: the ordered sequence without tombstoned items, with
    marks and attributes resolved. *)
Definition materialize (s : Store) : list Rendered :=
  omap (λ id,
          if decide (id ∈ tombstones s) then None
          else (λ item, mkRendered id (content item) (activeMarks s id item)
                              (attrsOf s id item))
                 <$> items s !! id)
       (walk (S (size (items s))) s None).

(** Identifiers are globally unique, and so are last-writer-wins stamps:
    two creations with the same identifier are the same item, and two
    changes of one mark or attribute with the same stamp carry the same
    value. *)
Definition coherent (o1 o2 : Op) : Prop :=
  match o1, o2 with
  | Insert i a, Insert j b => i = j → a = b
  | SetMark i m st v, SetMark j m' st' v' => i = j → m = m' → st = st' → v = v'
  | SetBlockAttr i a st v, SetBlockAttr j a' st' v' =>
      i = j → a = a' → st = st' → v = v'
  | _, _ => True
  end.

#[global] Instance coherent_dec o1 o2 : Decision (coherent o1 o2).
Proof. destruct o1, o2; simpl; apply _. Defined.

Definition coherentOps (ops : list Op) : Prop :=
  Forall (λ o1, Forall (coherent o1) ops) ops.

#[global] Instance coherentOps_dec ops : Decision (coherentOps ops).
Proof. unfold coherentOps. apply _. Defined.

End Replica.

(** ** Facts about the server *)

Module ServerFacts.
Import Server.

(** A message on a socket changes nothing the server holds. *)
Lemma socketMessage_state ws s : (socketMessage ws s).1 = s.
Proof.
  unfold socketMessage. destruct (sockets s !! ws) as [w|]; [|done].
  destruct (closeEmitted w); [done|]. by destruct (setupDone w).
Qed.

Lemma next_message ws now s : next s (WsMessage ws now) = s.
Proof. apply socketMessage_state. Qed.

(** *** Well-formedness is preserved by every primitive update *)

Lemma wf_initial : wf initial.
Proof.
  split; simpl; try done; intros *; rewrite ?lookup_empty;
    try (intros [? ?]; done); done.
Qed.

Lemma wf_log l s : wf s → wf (log l s).
Proof. intros [? ? ? ? ? ? ?]. by split. Qed.

Lemma wf_alter_metas f m s : wf s → wf (set_metas (alter f m) s).
Proof.
  intros [Hd Hy Hm Hi Hyl Hml Hsl]. split; simpl; try done.
  - intros docId m' H. apply lookup_alter_is_Some. eauto.
  - intros m' H. apply Hml. by apply lookup_alter_is_Some in H.
Qed.

Lemma wf_alter_ydocs f d s : wf s → wf (set_ydocs (alter f d) s).
Proof.
  intros [Hd Hy Hm Hi Hyl Hml Hsl]. split; simpl; try done.
  - intros docId d' H. apply lookup_alter_is_Some. eauto.
  - intros d' H. apply Hyl. by apply lookup_alter_is_Some in H.
Qed.

Lemma wf_alter_sockets f w s : wf s → wf (set_sockets (alter f w) s).
Proof.
  intros [Hd Hy Hm Hi Hyl Hml Hsl]. split; simpl; try done.
  intros w' H. apply Hsl. by apply lookup_alter_is_Some in H.
Qed.

Lemma wf_newSocket s : wf s → wf (newSocket s).2.
Proof.
  intros [Hd Hy Hm Hi Hyl Hml Hsl]. split; simpl; try done.
  - intros d H. apply Hyl in H. lia.
  - intros m H. apply Hml in H. lia.
  - intros w H. apply lookup_insert_is_Some in H as [<-|[_ H]]; [lia|].
    apply Hsl in H. lia.
Qed.

Lemma wf_createDocument docId t now s : wf s → wf (createDocument docId t now s).
Proof.
  intros [Hd Hy Hm Hi Hyl Hml Hsl]. split; simpl.
  - rewrite !dom_insert_L. by rewrite Hd.
  - intros k d H. apply lookup_insert_Some in H as [[_ <-]|[_ H]].
    + rewrite lookup_insert_eq. eauto.
    + apply lookup_insert_is_Some. right. split; [|eauto].
      apply Hy, Hyl in H. lia.
  - intros k m H. apply lookup_insert_Some in H as [[_ <-]|[_ H]].
    + rewrite lookup_insert_eq. eauto.
    + apply lookup_insert_is_Some. right. split; [|eauto].
      apply Hm, Hml in H. lia.
  - intros a b m Ha Hb.
    apply lookup_insert_Some in Ha as [[<- <-]|[Hna Ha]];
      apply lookup_insert_Some in Hb as [[<- Hb]|[Hnb Hb]]; try done.
    + apply Hm, Hml in Hb. lia.
    + apply Hm, Hml in Ha. lia.
    + eauto.
  - intros d H. apply lookup_insert_is_Some in H as [<-|[_ H]]; [lia|].
    apply Hyl in H. lia.
  - intros m H. apply lookup_insert_is_Some in H as [<-|[_ H]]; [lia|].
    apply Hml in H. lia.
  - intros w H. apply Hsl in H. lia.
Qed.

Lemma wf_deleteBoth docId s :
  wf s → wf (set_documentMetadata (delete docId) (set_documents (delete docId) s)).
Proof.
  intros [Hd Hy Hm Hi Hyl Hml Hsl]. split; simpl; try done.
  - rewrite !dom_delete_L. by rewrite Hd.
  - intros k d H. apply lookup_delete_Some in H as [_ H]. eauto.
  - intros k m H. apply lookup_delete_Some in H as [_ H]. eauto.
  - intros a b m Ha Hb. apply lookup_delete_Some in Ha as [_ Ha].
    apply lookup_delete_Some in Hb as [_ Hb]. eauto.
Qed.

Lemma wf_same_presence s docId :
  wf s → documents s !! docId = None ↔ documentMetadata s !! docId = None.
Proof.
  intros Hwf. rewrite <- !not_elem_of_dom. by rewrite (wf_dom _ Hwf).
Qed.

(** *** Every handler preserves well-formedness *)

Lemma postDocument_state docId t protocol host now s :
  (postDocument docId t protocol host now s).1
  = createDocument docId (Some (default "Untitled Document" t)) now s.
Proof. reflexivity. Qed.

Lemma wf_putTitle docId t now s : wf s → wf (putTitle docId t now s).1.
Proof.
  intros Hwf. unfold putTitle. destruct (documentMetadata s !! docId); simpl; [|done].
  by do 2 apply wf_alter_metas.
Qed.

Lemma wf_deleteDocument docId s : wf s → wf (deleteDocument docId s).1.
Proof.
  intros Hwf. unfold deleteDocument. destruct (documents s !! docId); simpl; [|done].
  by apply wf_deleteBoth, wf_alter_ydocs.
Qed.

Lemma wf_closeListeners hs s : wf s → wf (foldl closeListener s hs).
Proof.
  revert s. induction hs as [|[[m c] n] hs IH]; intros s Hwf; simpl; [done|].
  by apply IH, wf_log, wf_alter_metas.
Qed.

Lemma wf_socketClosed ws s : wf s → wf (socketClosed ws s).
Proof.
  intros Hwf. unfold socketClosed. destruct (sockets s !! ws) as [w|]; [|done].
  destruct (closeEmitted w); [done|].
  by apply wf_closeListeners, wf_alter_sockets.
Qed.

Lemma wf_updateListeners now ns s : wf s → wf (foldl (updateListener now) s ns).
Proof.
  revert s. induction ns as [|n ns IH]; intros s Hwf; simpl; [done|].
  apply IH. unfold updateListener. destruct (documentMetadata s !! n); [|done].
  by apply wf_alter_metas.
Qed.

Lemma wf_docUpdated ydoc now s : wf s → wf (docUpdated ydoc now s).
Proof.
  intros Hwf. unfold docUpdated. destruct (ydocs s !! ydoc); [|done].
  by apply wf_updateListeners.
Qed.

Lemma wf_setupFailed ws s : wf s → wf (setupFailed ws s).
Proof. intros Hwf. by apply wf_alter_sockets, wf_log. Qed.

Lemma wf_ensureDocument docName now s : wf s → wf (ensureDocument docName now s).
Proof.
  intros Hwf. unfold ensureDocument.
  destruct (documents s !! docName) eqn:Hdoc; [done|].
  simpl. apply (wf_same_presence _ _ Hwf) in Hdoc as Hmeta. rewrite Hmeta.
  by apply (wf_createDocument docName (Some "Untitled Document") now).
Qed.

Lemma wf_joinCollaborators ws docName c s :
  wf s → wf (joinCollaborators ws docName c s).
Proof.
  intros Hwf. unfold joinCollaborators.
  destruct (documentMetadata s !! docName); [|done].
  by apply wf_alter_sockets, wf_alter_metas.
Qed.

Lemma wf_setupSync ws docName thr s : wf s → wf (setupSync ws docName thr s).
Proof.
  intros Hwf. unfold setupSync.
  destruct (documents s !! docName), thr;
    auto using wf_setupFailed, wf_alter_sockets, wf_alter_ydocs.
Qed.

Lemma wf_connection reqUrl c now thr s : wf s → wf (connection reqUrl c now thr s).1.
Proof.
  intros Hwf. unfold connection.
  pose proof (wf_newSocket _ Hwf) as H0. destruct (newSocket s) as [ws s0].
  simpl in *.
  by apply wf_setupSync, wf_joinCollaborators, wf_ensureDocument, wf_log.
Qed.

Lemma wf_next s e : wf s → wf (next s e).
Proof.
  intros Hwf. destruct e; unfold next; simpl; rewrite ?socketMessage_state; try done.
  - unfold getDocument. by destruct (metadataOf s docId).
  - by apply wf_createDocument.
  - by apply wf_putTitle.
  - by apply wf_deleteDocument.
  - by apply wf_connection.
  - by apply wf_socketClosed.
  - by apply wf_docUpdated.
Qed.

Lemma wf_run evs s : wf s → wf (run s evs).
Proof.
  revert s. induction evs as [|e evs IH]; intros s Hwf; simpl; [done|].
  by apply IH, wf_next.
Qed.

Lemma wf_reachable s : reachable s → wf s.
Proof. intros [evs ->]. apply wf_run, wf_initial. Qed.

(** *** The two catalogue maps hold the same identifiers *)

(** C9: after any sequence of REST operations and WebSocket events, starting
    from the empty server, [documents] and [documentMetadata] have exactly
    the same keys: a Y.Doc is stored under an identifier if and only if a
    metadata record is stored under it. *)
Theorem documents_and_metadata_same_ids (evs : list Event) :
  dom (documents (run initial evs)) = dom (documentMetadata (run initial evs))
  ∧ ∀ docId, is_Some (documents (run initial evs) !! docId)
             ↔ is_Some (metadataOf (run initial evs) docId).
Proof.
  pose proof (wf_run evs _ wf_initial) as Hwf. split; [apply Hwf|].
  intros docId. rewrite <- elem_of_dom, (wf_dom _ Hwf), elem_of_dom.
  unfold metadataOf. split.
  - intros [m Hm]. rewrite Hm. simpl. by eapply wf_meta.
  - intros [o Ho]. destruct (documentMetadata _ !! docId); [eauto|done].
Qed.

(** *** Requests for a missing document *)

(** C8: on a reachable server, GET, PUT title and DELETE for an identifier
    with no stored document answer 404 and return the state they were given,
    so neither map nor any metadata record changes. *)
Theorem missing_document_404 (s : State) (docId : string) (t : option string) (now : Date) :
  reachable s →
  documents s !! docId = None →
  step s (GetDocument docId) = (s, Http RNotFound)
  ∧ step s (PutTitle docId t now) = (s, Http RNotFound)
  ∧ step s (DeleteDocument docId) = (s, Http RNotFound)
  ∧ status RNotFound = 404.
Proof.
  intros Hr Hdoc. apply wf_reachable in Hr.
  apply (wf_same_presence _ _ Hr) in Hdoc as Hmeta.
  unfold step, getDocument, putTitle, deleteDocument, metadataOf.
  by rewrite Hdoc, Hmeta.
Qed.

Lemma missing_document_404_witness :
  let s := run initial [PostDocument "a" None "http" "host" 1%Z] in
  step s (GetDocument "b") = (s, Http RNotFound)
  ∧ step s (PutTitle "b" (Some "T") 5%Z) = (s, Http RNotFound)
  ∧ step s (DeleteDocument "b") = (s, Http RNotFound)
  ∧ status RNotFound = 404.
Proof.
  apply (missing_document_404 _ "b" (Some "T") 5%Z).
  - by eexists.
  - vm_compute. reflexivity.
Defined.

(** *** What each block of the connection listener touches *)

Lemma joinCollaborators_Some ws docName c s m :
  documentMetadata s !! docName = Some m →
  joinCollaborators ws docName c s
  = set_sockets (alter (onClose (m, c, docName)) ws)
      (set_metas (alter (addCollaborator c) m) s).
Proof. intros H. unfold joinCollaborators. by rewrite H. Qed.

Lemma joinCollaborators_None ws docName c s :
  documentMetadata s !! docName = None → joinCollaborators ws docName c s = s.
Proof. intros H. unfold joinCollaborators. by rewrite H. Qed.

Lemma joinCollaborators_frame ws docName c s :
  documents (joinCollaborators ws docName c s) = documents s
  ∧ documentMetadata (joinCollaborators ws docName c s) = documentMetadata s
  ∧ ydocs (joinCollaborators ws docName c s) = ydocs s
  ∧ nextLoc (joinCollaborators ws docName c s) = nextLoc s.
Proof. unfold joinCollaborators. by destruct (documentMetadata s !! docName). Qed.

Lemma setupSync_frame ws docName thr s :
  documents (setupSync ws docName thr s) = documents s
  ∧ documentMetadata (setupSync ws docName thr s) = documentMetadata s
  ∧ metas (setupSync ws docName thr s) = metas s
  ∧ nextLoc (setupSync ws docName thr s) = nextLoc s.
Proof. unfold setupSync. by destruct (documents s !! docName), thr. Qed.

Lemma setupSync_sockets ws docName thr s d :
  documents s !! docName = Some d →
  sockets (setupSync ws docName thr s)
  = alter (if thr then close else markSetup (SetupWithDoc docName d)) ws (sockets s).
Proof. intros H. unfold setupSync. rewrite H. by destruct thr. Qed.

Lemma setupSync_ydocs ws docName thr s d :
  documents s !! docName = Some d →
  ydocs (setupSync ws docName thr s)
  = if thr then ydocs s else alter (onUpdate docName) d (ydocs s).
Proof. intros H. unfold setupSync. rewrite H. by destruct thr. Qed.

Lemma metadataOf_frame s s' docId :
  documentMetadata s' = documentMetadata s → metas s' = metas s →
  metadataOf s' docId = metadataOf s docId.
Proof. intros H1 H2. unfold metadataOf. by rewrite H1, H2. Qed.

(** *** Connecting to a name with no document *)

(** The outcome of the connection listener on any state, by whether the
    document and the metadata record existed. *)
Lemma connection_outcome
    (s : State) (reqUrl : option string) (c : string) (now : Date) (thr : bool) :
  let docName := docNameOf reqUrl in
  let s' := (connection reqUrl c now thr s).1 in
  let ws := (connection reqUrl c now thr s).2 in
  ∃ ydoc w,
    documents s' !! docName = Some ydoc
    ∧ sockets s' !! ws = Some w
    ∧ setupDone w = (if thr then None else Some (SetupWithDoc docName ydoc))
    ∧ closeCalled w = thr
    ∧ closeEmitted w = false
    ∧ (∀ d, documents s !! docName = Some d → ydoc = d)
    ∧ (documents s !! docName = None →
         ydocs s' !! ydoc = Some (mkYDoc false (if thr then [] else [docName]))
         ∧ (wf s → ydocs s !! ydoc = None)
         ∧ (documentMetadata s !! docName = None →
              metadataOf s' docName
              = Some (mkMetadata (Some "Untitled Document") now {[c]}))
         ∧ (∀ m o, documentMetadata s !! docName = Some m → metas s !! m = Some o →
              metadataOf s' docName = Some (addCollaborator c o))).
Proof.
  intros docName s' ws. subst s' ws. unfold connection. simpl. fold docName.
  set (s0 := log _ _).
  assert (sockets s0 !! nextLoc s = Some (mkSocket [] None false false)) as Hws
    by (simpl; apply lookup_insert_eq).
  destruct (documents s !! docName) as [d|] eqn:Hdoc.
  - (* the document exists *)
    assert (ensureDocument docName now s0 = s0) as ->
      by (unfold ensureDocument; simpl; by rewrite Hdoc).
    exists d.
    pose proof (joinCollaborators_frame (nextLoc s) docName c s0) as (Hj1 & _).
    assert (documents (joinCollaborators (nextLoc s) docName c s0) !! docName = Some d)
      as Hd2 by (by rewrite Hj1).
    assert (∃ w0, sockets (joinCollaborators (nextLoc s) docName c s0) !! nextLoc s
                  = Some w0 ∧ setupDone w0 = None ∧ closeCalled w0 = false
                    ∧ closeEmitted w0 = false) as (w0 & Hw0 & ? & ? & ?).
    { destruct (documentMetadata s0 !! docName) as [m|] eqn:Hm.
      - rewrite (joinCollaborators_Some _ _ _ _ _ Hm). simpl.
        rewrite lookup_alter_eq, lookup_insert_eq. simpl. eauto.
      - rewrite (joinCollaborators_None _ _ _ _ Hm). eauto. }
    eexists. rewrite (setupSync_sockets _ _ _ _ _ Hd2), lookup_alter_eq, Hw0.
    destruct (setupSync_frame (nextLoc s) docName thr
                (joinCollaborators (nextLoc s) docName c s0)) as (-> & _).
    rewrite Hd2. simpl. split_and!; try done; try (by destruct thr).
    congruence.
  - (* no document under that name *)
    exists (S (nextLoc s)).
    set (s1 := ensureDocument docName now s0).
    assert (documents s1 !! docName = Some (S (nextLoc s))
            ∧ ydocs s1 !! S (nextLoc s) = Some (mkYDoc false [])
            ∧ sockets s1 !! nextLoc s = Some (mkSocket [] None false false)
            ∧ (documentMetadata s !! docName = None →
               ∃ m, documentMetadata s1 !! docName = Some m
                    ∧ metas s1 !! m
                      = Some (mkMetadata (Some "Untitled Document") now ∅))
            ∧ (∀ m o, documentMetadata s !! docName = Some m → metas s !! m = Some o →
               documentMetadata s1 !! docName = Some m ∧ metas s1 !! m = Some o))
      as (Hd1 & Hy1 & Hw1 & Hnew & Hold).
    { subst s1. unfold ensureDocument. simpl. rewrite Hdoc. simpl.
      destruct (documentMetadata s !! docName) as [m|] eqn:Hm; simpl.
      - rewrite !lookup_insert_eq. split_and!; try done.
        intros ? ? [= <-] ?. by rewrite Hm.
      - rewrite !lookup_insert_eq. split_and!; try done.
        intros _. eexists. split; [done|]. by rewrite lookup_insert_eq. }
    clearbody s1.
    pose proof (joinCollaborators_frame (nextLoc s) docName c s1) as (Hj1 & Hj2 & Hj3 & _).
    set (s2 := joinCollaborators (nextLoc s) docName c s1) in *.
    assert (documents s2 !! docName = Some (S (nextLoc s))) as Hd2 by (by rewrite Hj1).
    assert (∃ w0, sockets s2 !! nextLoc s = Some w0 ∧ setupDone w0 = None
                  ∧ closeCalled w0 = false ∧ closeEmitted w0 = false)
      as (w0 & Hw0 & ? & ? & ?).
    { subst s2. destruct (documentMetadata s1 !! docName) as [m|] eqn:Hm.
      - rewrite (joinCollaborators_Some _ _ _ _ _ Hm). simpl.
        rewrite lookup_alter_eq, Hw1. simpl. eauto.
      - rewrite (joinCollaborators_None _ _ _ _ Hm). eauto. }
    eexists. rewrite (setupSync_sockets _ _ _ _ _ Hd2), lookup_alter_eq, Hw0.
    rewrite (setupSync_ydocs _ _ _ _ _ Hd2).
    destruct (setupSync_frame (nextLoc s) docName thr s2) as (HS1 & HS2 & HS3 & _).
    rewrite HS1, Hd2. simpl.
    split; [done|]. split; [done|]. split; [by destruct thr|].
    split; [by destruct thr|]. split; [by destruct thr|]. split; [done|].
    intros _. split; [|split; [|split]].
    + rewrite Hj3. destruct thr; [done|]. by rewrite lookup_alter_eq, Hy1.
    + intros Hwf. destruct (ydocs s !! S (nextLoc s)) eqn:Hy; [|done].
      assert (S (nextLoc s) < nextLoc s) by (eapply wf_ydocs_lt; eauto). lia.
    + intros Hm. destruct (Hnew Hm) as (m & Hm1 & Ho1).
      rewrite (metadataOf_frame _ _ _ HS2 HS3). unfold metadataOf.
      rewrite Hj2, Hm1. simpl. subst s2.
      rewrite (joinCollaborators_Some _ _ _ _ _ Hm1). simpl.
      rewrite lookup_alter_eq, Ho1. simpl. unfold addCollaborator. simpl.
      do 2 f_equal. apply (right_id_L ∅ (∪)).
    + intros m o Hm Ho. destruct (Hold _ _ Hm Ho) as (Hm1 & Ho1).
      rewrite (metadataOf_frame _ _ _ HS2 HS3). unfold metadataOf.
      rewrite Hj2, Hm1. simpl. subst s2.
      rewrite (joinCollaborators_Some _ _ _ _ _ Hm1). simpl.
      by rewrite lookup_alter_eq, Ho1.
Qed.

(** *** How each handler acts on a stored metadata record *)

Lemma metadataOf_Some s docId o :
  metadataOf s docId = Some o ↔
  ∃ m, documentMetadata s !! docId = Some m ∧ metas s !! m = Some o.
Proof.
  unfold metadataOf. destruct (documentMetadata s !! docId) as [m|]; simpl.
  - split; [eauto|]. by intros (? & [= <-] & ?).
  - split; [done|]. by intros (? & ? & ?).
Qed.

Lemma createDocument_metadata_new uuid t now s :
  metadataOf (createDocument uuid t now s) uuid = Some (mkMetadata t now ∅).
Proof.
  unfold metadataOf, createDocument. simpl.
  rewrite lookup_insert_eq. simpl. by rewrite lookup_insert_eq.
Qed.

Lemma createDocument_metadata_other uuid t now s docId :
  wf s → docId ≠ uuid →
  metadataOf (createDocument uuid t now s) docId = metadataOf s docId.
Proof.
  intros Hwf Hne. unfold metadataOf, createDocument. simpl.
  rewrite lookup_insert_ne by done.
  destruct (documentMetadata s !! docId) as [m|] eqn:Hm; [simpl|done].
  rewrite lookup_insert_ne; [done|].
  apply (wf_meta _ Hwf), (wf_metas_lt _ Hwf) in Hm. lia.
Qed.

Lemma ensureDocument_metadata docName now s docId o :
  wf s → metadataOf s docId = Some o →
  metadataOf (ensureDocument docName now s) docId = Some o.
Proof.
  intros Hwf Ho. unfold ensureDocument.
  destruct (documents s !! docName) eqn:Hdoc; [done|].
  simpl. apply (wf_same_presence _ _ Hwf) in Hdoc as Hmeta. rewrite Hmeta.
  change (metadataOf (createDocument docName (Some "Untitled Document") now s) docId
          = Some o).
  rewrite createDocument_metadata_other; [done..|].
  intros ->. apply metadataOf_Some in Ho as (m & Hm & _). congruence.
Qed.

Lemma joinCollaborators_metadata ws docName c s docId o :
  wf s → metadataOf s docId = Some o →
  metadataOf (joinCollaborators ws docName c s) docId
  = Some (if decide (docName = docId) then addCollaborator c o else o).
Proof.
  intros Hwf Ho. apply metadataOf_Some in Ho as (m & Hm & Ho).
  unfold joinCollaborators.
  destruct (documentMetadata s !! docName) as [m'|] eqn:Hm'.
  - unfold metadataOf. simpl. rewrite Hm. simpl. case_decide as Hd.
    + subst. assert (m' = m) as -> by congruence.
      by rewrite lookup_alter_eq, Ho.
    + rewrite lookup_alter_ne; [done|]. intros ->.
      apply Hd. eapply wf_meta_inj; eauto.
  - case_decide; [congruence|]. apply metadataOf_Some. eauto.
Qed.

Lemma setupSync_metadata ws docName thr s docId :
  metadataOf (setupSync ws docName thr s) docId = metadataOf s docId.
Proof.
  destruct (setupSync_frame ws docName thr s) as (_ & H1 & H2 & _).
  by apply metadataOf_frame.
Qed.

Lemma connection_metadata reqUrl c now thr s docId o :
  wf s → metadataOf s docId = Some o →
  metadataOf (connection reqUrl c now thr s).1 docId
  = Some (if decide (docNameOf reqUrl = docId) then addCollaborator c o else o).
Proof.
  intros Hwf Ho. unfold connection.
  pose proof (wf_newSocket _ Hwf) as H0. destruct (newSocket s) as [ws s0] eqn:Hs0.
  simpl in *. rewrite setupSync_metadata.
  assert (s0 = (newSocket s).2) as -> by (by rewrite Hs0).
  apply joinCollaborators_metadata.
  - by apply wf_ensureDocument, wf_log.
  - apply ensureDocument_metadata; [by apply wf_log|done].
Qed.

Lemma putTitle_metadata docId t now s docId' o :
  wf s → metadataOf s docId' = Some o →
  metadataOf (putTitle docId t now s).1 docId'
  = Some (if decide (docId = docId') then mkMetadata t now (collaborators o) else o).
Proof.
  intros Hwf Ho. apply metadataOf_Some in Ho as (m & Hm & Ho).
  unfold putTitle. destruct (documentMetadata s !! docId) as [m'|] eqn:Hm'; simpl.
  - unfold metadataOf. simpl. rewrite Hm. simpl. case_decide as Hd.
    + subst. assert (m' = m) as -> by congruence.
      by rewrite !lookup_alter_eq, Ho.
    + rewrite !lookup_alter_ne; [done|..]; intros ->;
        apply Hd; eapply wf_meta_inj; eauto.
  - case_decide; [congruence|]. apply metadataOf_Some. eauto.
Qed.

Lemma deleteDocument_metadata docId s docId' :
  wf s →
  metadataOf (deleteDocument docId s).1 docId'
  = if decide (docId = docId') then None else metadataOf s docId'.
Proof.
  intros Hwf. unfold deleteDocument.
  destruct (documents s !! docId) as [d|] eqn:Hd; simpl.
  - unfold metadataOf. simpl. case_decide as Hne.
    + subst. by rewrite lookup_delete_eq.
    + by rewrite lookup_delete_ne.
  - case_decide as Hne; [|done]. subst.
    apply (wf_same_presence _ _ Hwf) in Hd. unfold metadataOf. by rewrite Hd.
Qed.

(** *** Listeners run in a loop *)

Lemma updateListener_frame now s n :
  documents (updateListener now s n) = documents s
  ∧ documentMetadata (updateListener now s n) = documentMetadata s
  ∧ ydocs (updateListener now s n) = ydocs s
  ∧ sockets (updateListener now s n) = sockets s
  ∧ nextLoc (updateListener now s n) = nextLoc s.
Proof. unfold updateListener. by destruct (documentMetadata s !! n). Qed.

Lemma updateListeners_frame now ns s :
  documents (foldl (updateListener now) s ns) = documents s
  ∧ documentMetadata (foldl (updateListener now) s ns) = documentMetadata s
  ∧ ydocs (foldl (updateListener now) s ns) = ydocs s
  ∧ sockets (foldl (updateListener now) s ns) = sockets s
  ∧ nextLoc (foldl (updateListener now) s ns) = nextLoc s.
Proof.
  revert s. induction ns as [|n ns IH]; intros s; simpl; [done|].
  destruct (IH (updateListener now s n)) as (-> & -> & -> & -> & ->).
  apply updateListener_frame.
Qed.

Lemma setLastModified_twice now o :
  setLastModified now (setLastModified now o) = setLastModified now o.
Proof. done. Qed.

(** A metadata object is stamped exactly when some listener's name currently
    maps to it. *)
Lemma updateListeners_metas now ns s m :
  metas (foldl (updateListener now) s ns) !! m
  = if decide (Exists (λ n, documentMetadata s !! n = Some m) ns)
    then setLastModified now <$> metas s !! m
    else metas s !! m.
Proof.
  revert s. induction ns as [|n ns IH]; intros s; cbn [foldl].
  - case_decide as H; [|done]. by apply Exists_nil in H.
  - rewrite IH. destruct (updateListener_frame now s n) as (_ & -> & _).
    assert (metas (updateListener now s n) !! m
            = if decide (documentMetadata s !! n = Some m)
              then setLastModified now <$> metas s !! m else metas s !! m) as ->.
    { unfold updateListener. destruct (documentMetadata s !! n) as [m'|] eqn:Hn.
      - simpl. case_decide as Hd.
        + assert (m' = m) as -> by congruence. by rewrite lookup_alter_eq.
        + rewrite lookup_alter_ne; [done|]. congruence.
      - by case_decide. }
    repeat case_decide; try done;
      try (exfalso; rewrite ?Exists_cons in *; tauto).
    rewrite <- option_fmap_compose. by destruct (metas s !! m).
Qed.

Lemma closeListener_frame s h :
  documents (closeListener s h) = documents s
  ∧ documentMetadata (closeListener s h) = documentMetadata s
  ∧ ydocs (closeListener s h) = ydocs s
  ∧ sockets (closeListener s h) = sockets s
  ∧ nextLoc (closeListener s h) = nextLoc s.
Proof. by destruct h as [[m c] n]. Qed.

Lemma closeListeners_frame hs s :
  documents (foldl closeListener s hs) = documents s
  ∧ documentMetadata (foldl closeListener s hs) = documentMetadata s
  ∧ ydocs (foldl closeListener s hs) = ydocs s
  ∧ sockets (foldl closeListener s hs) = sockets s
  ∧ nextLoc (foldl closeListener s hs) = nextLoc s.
Proof.
  revert s. induction hs as [|h hs IH]; intros s; simpl; [done|].
  destruct (IH (closeListener s h)) as (-> & -> & -> & -> & ->).
  apply closeListener_frame.
Qed.

(** Close listeners only ever take collaborator ids away, and only their
    own. *)
Lemma closeListeners_metas hs s m o :
  metas s !! m = Some o →
  ∃ o', metas (foldl closeListener s hs) !! m = Some o'
        ∧ title o' = title o ∧ lastModified o' = lastModified o
        ∧ collaborators o' ⊆ collaborators o
        ∧ ∀ c, c ∈ collaborators o → Forall (λ h, h.1.2 ≠ c) hs →
               c ∈ collaborators o'.
Proof.
  revert s o. induction hs as [|[[m' c'] n'] hs IH]; intros s o Ho; simpl.
  - exists o. by rewrite Ho.
  - destruct (decide (m' = m)) as [->|Hne].
    + destruct (IH (closeListener s (m, c', n')) (deleteCollaborator c' o))
        as (o' & Ho' & Ht & Hl & Hsub & Hkeep).
      { simpl. by rewrite lookup_alter_eq, Ho. }
      exists o'. split_and!; try done.
      * etrans; [exact Hsub|]. by apply subseteq_difference_l.
      * intros c Hc Hall. apply Forall_cons in Hall as [Hc' Hall].
        apply Hkeep; [|done]. simpl in *.
        apply elem_of_difference. split; [done|].
        rewrite elem_of_singleton. congruence.
    + destruct (IH (closeListener s (m', c', n')) o)
        as (o' & Ho' & Ht & Hl & Hsub & Hkeep).
      { simpl. by rewrite lookup_alter_ne. }
      exists o'. split_and!; try done.
      intros c Hc Hall. apply Forall_cons in Hall as [_ Hall]. by apply Hkeep.
Qed.

Lemma socketClosed_frame ws s :
  documents (socketClosed ws s) = documents s
  ∧ documentMetadata (socketClosed ws s) = documentMetadata s
  ∧ ydocs (socketClosed ws s) = ydocs s
  ∧ nextLoc (socketClosed ws s) = nextLoc s.
Proof.
  unfold socketClosed. destruct (sockets s !! ws) as [w|]; [|done].
  destruct (closeEmitted w); [done|].
  by destruct (closeListeners_frame (closeHandlers w)
                 (set_sockets (alter emitClose ws) s)) as (-> & -> & -> & _ & ->).
Qed.

Lemma socketClosed_metadata ws s docId o :
  metadataOf s docId = Some o →
  ∃ o', metadataOf (socketClosed ws s) docId = Some o'
        ∧ title o' = title o ∧ lastModified o' = lastModified o
        ∧ collaborators o' ⊆ collaborators o.
Proof.
  intros Ho. apply metadataOf_Some in Ho as (m & Hm & Ho).
  unfold socketClosed. destruct (sockets s !! ws) as [w|].
  2:{ exists o. split; [apply metadataOf_Some; eauto|done]. }
  destruct (closeEmitted w).
  { exists o. split; [apply metadataOf_Some; eauto|done]. }
  destruct (closeListeners_metas (closeHandlers w)
              (set_sockets (alter emitClose ws) s) m o Ho)
    as (o' & Ho' & ? & ? & ? & _).
  exists o'. split; [|done]. apply metadataOf_Some. exists m. split; [|done].
  by destruct (closeListeners_frame (closeHandlers w)
                 (set_sockets (alter emitClose ws) s)) as (_ & -> & _).
Qed.

Lemma docUpdated_metadata ydoc now s docId o :
  wf s → metadataOf s docId = Some o →
  metadataOf (docUpdated ydoc now s) docId
  = Some (match ydocs s !! ydoc with
          | Some y =>
              if decide (docId ∈ updateObservers y) then setLastModified now o else o
          | None => o
          end).
Proof.
  intros Hwf Ho. apply metadataOf_Some in Ho as (m & Hm & Ho).
  unfold docUpdated. destruct (ydocs s !! ydoc) as [y|] eqn:Hy.
  2:{ apply metadataOf_Some. eauto. }
  apply metadataOf_Some. exists m.
  destruct (updateListeners_frame now (updateObservers y) s) as (_ & -> & _).
  split; [done|]. rewrite updateListeners_metas, Ho. simpl.
  case_decide as H1; case_decide as H2; try done; exfalso.
  - apply H2. apply Exists_exists in H1 as (n & Hin & Hn).
    by rewrite (wf_meta_inj _ Hwf _ _ _ Hm Hn).
  - apply H1. apply Exists_exists. eauto.
Qed.

(** *** One step, seen from one metadata record *)

Lemma next_metadata s e docId o :
  wf s → metadataOf s docId = Some o →
  match e with
  | PostDocument uuid t _ _ now =>
      metadataOf (next s e) docId
      = Some (if decide (uuid = docId)
              then mkMetadata (Some (default "Untitled Document" t)) now ∅ else o)
  | PutTitle docId' t now =>
      metadataOf (next s e) docId
      = Some (if decide (docId' = docId) then mkMetadata t now (collaborators o) else o)
  | DeleteDocument docId' =>
      metadataOf (next s e) docId = if decide (docId' = docId) then None else Some o
  | WsConnection reqUrl c _ _ =>
      metadataOf (next s e) docId
      = Some (if decide (docNameOf reqUrl = docId) then addCollaborator c o else o)
  | WsClose _ =>
      ∃ o', metadataOf (next s e) docId = Some o'
            ∧ title o' = title o ∧ lastModified o' = lastModified o
            ∧ collaborators o' ⊆ collaborators o
  | YDocUpdate d now =>
      metadataOf (next s e) docId
      = Some (match ydocs s !! d with
              | Some y =>
                  if decide (docId ∈ updateObservers y)
                  then setLastModified now o else o
              | None => o
              end)
  | _ => metadataOf (next s e) docId = Some o
  end.
Proof.
  intros Hwf Ho. destruct e; unfold next; simpl.
  - done.
  - unfold getDocument. by destruct (metadataOf s docId0).
  - change (metadataOf (createDocument uuid
              (Some (default "Untitled Document" bodyTitle)) now s) docId = 
            Some (if decide (uuid = docId)
                  then mkMetadata (Some (default "Untitled Document" bodyTitle)) now ∅
                  else o)).
    case_decide as Hd.
    + subst. apply createDocument_metadata_new.
    + by rewrite createDocument_metadata_other.
  - by apply putTitle_metadata.
  - rewrite deleteDocument_metadata by done. by rewrite Ho.
  - done.
  - by rewrite socketMessage_state.
  - by apply connection_metadata.
  - by apply socketClosed_metadata.
  - by apply docUpdated_metadata.
Qed.

(** *** Lifecycle of a metadata record *)

(** What the handlers do to the metadata record of an identifier: POST
    stores the document and a record with the given or default title, the
    current time and no collaborators; PUT title sets title and timestamp;
    the update listener, run if the stored Y.Doc emits "update", sets the
    timestamp; DELETE removes the record together with the document, and no
    other step removes a metadata record. *)
Theorem metadata_lifecycle (s : State) (docId : string) :
  reachable s →
  (∀ t protocol host now,
     let s' := next s (PostDocument docId t protocol host now) in
     is_Some (documents s' !! docId)
     ∧ metadataOf s' docId
       = Some (mkMetadata (Some (default "Untitled Document" t)) now ∅))
  ∧ (∀ o t now,
       metadataOf s docId = Some o →
       metadataOf (next s (PutTitle docId t now)) docId
       = Some (mkMetadata t now (collaborators o)))
  ∧ (∀ o d y now,
       metadataOf s docId = Some o →
       documents s !! docId = Some d → ydocs s !! d = Some y →
       docId ∈ updateObservers y →
       metadataOf (next s (YDocUpdate d now)) docId
       = Some (mkMetadata (title o) now (collaborators o)))
  ∧ (is_Some (documents s !! docId) →
       (step s (DeleteDocument docId)).2 = Http RSuccess
       ∧ documents (next s (DeleteDocument docId)) !! docId = None
       ∧ documentMetadata (next s (DeleteDocument docId)) !! docId = None
       ∧ metadataOf (next s (DeleteDocument docId)) docId = None)
  ∧ (∀ e, is_Some (metadataOf s docId) → metadataOf (next s e) docId = None →
          e = DeleteDocument docId).
Proof.
  intros Hr. apply wf_reachable in Hr as Hwf. split_and!.
  - intros t protocol host now s'. subst s'. unfold next. simpl. split.
    + rewrite lookup_insert_eq. eauto.
    + apply (createDocument_metadata_new docId
               (Some (default "Untitled Document" t)) now s).
  - intros o t now Ho.
    pose proof (next_metadata s (PutTitle docId t now) docId o Hwf Ho) as H.
    simpl in H. by rewrite decide_True in H.
  - intros o d y now Ho Hd Hy Hin.
    pose proof (next_metadata s (YDocUpdate d now) docId o Hwf Ho) as H.
    simpl in H. by rewrite Hy, decide_True in H.
  - intros [d Hd]. unfold next, step, deleteDocument, metadataOf. rewrite Hd. simpl.
    by rewrite !lookup_delete_eq.
  - intros e [o Ho] Hnone.
    pose proof (next_metadata s e docId o Hwf Ho) as H.
    destruct e; simpl in H; try congruence.
    + case_decide; congruence.
    + destruct H as (o' & H & _). congruence.
Qed.

(** *** The last-modified timestamp *)

(** What sets the last-modified timestamp of a stored document: an accepted
    title change sets it to the time of the request, and the update listener
    would, if the stored Y.Doc emitted "update"; no other step changes the
    timestamp of a document that stays stored. *)
Theorem timestamp_updates (s : State) (docId : string) :
  reachable s →
  (∀ t now,
     is_Some (metadataOf s docId) →
     (step s (PutTitle docId t now)).2 = Http RSuccess
     ∧ lastModifiedOf (next s (PutTitle docId t now)) docId = Some now)
  ∧ (∀ d y now,
       documents s !! docId = Some d → ydocs s !! d = Some y →
       docId ∈ updateObservers y →
       lastModifiedOf (next s (YDocUpdate d now)) docId = Some now)
  ∧ (∀ e t t',
       uuidFresh s e →
       lastModifiedOf s docId = Some t →
       lastModifiedOf (next s e) docId = Some t' →
       t' ≠ t →
       (∃ newTitle now, e = PutTitle docId newTitle now)
       ∨ (∃ d y now, e = YDocUpdate d now ∧ ydocs s !! d = Some y
                     ∧ docId ∈ updateObservers y)).
Proof.
  intros Hr. apply wf_reachable in Hr as Hwf. split_and!.
  - intros t now [o Ho].
    pose proof (next_metadata s (PutTitle docId t now) docId o Hwf Ho) as H.
    simpl in H. rewrite decide_True in H by done.
    unfold lastModifiedOf. rewrite H. split; [|done].
    apply metadataOf_Some in Ho as (m & Hm & _).
    unfold step, putTitle. by rewrite Hm.
  - intros d y now Hd Hy Hin.
    assert (is_Some (metadataOf s docId)) as [o Ho].
    { assert (is_Some (documentMetadata s !! docId)) as [m Hm].
      { apply elem_of_dom. rewrite <- (wf_dom _ Hwf). apply elem_of_dom. eauto. }
      destruct (wf_meta _ Hwf _ _ Hm) as [o Ho]. exists o.
      apply metadataOf_Some. eauto. }
    pose proof (next_metadata s (YDocUpdate d now) docId o Hwf Ho) as H.
    simpl in H. rewrite Hy, decide_True in H by done.
    unfold lastModifiedOf. by rewrite H.
  - intros e t t' Hfresh Ht Ht' Hne. unfold lastModifiedOf in *.
    destruct (metadataOf s docId) as [o|] eqn:Ho; [|done].
    simpl in Ht. injection Ht as <-.
    pose proof (next_metadata s e docId o Hwf Ho) as H.
    destruct e; simpl in H; try (rewrite H in Ht'; simpl in Ht'; congruence).
    + (* POST: a fresh identifier is not this document *)
      destruct Hfresh as [_ Hfresh]. case_decide as Hd.
      * subst. apply metadataOf_Some in Ho as (m & Hm & _). congruence.
      * rewrite H in Ht'. simpl in Ht'. congruence.
    + (* PUT title *)
      case_decide as Hd.
      * subst. left. eauto.
      * rewrite H in Ht'. simpl in Ht'. congruence.
    + (* DELETE *)
      case_decide; rewrite H in Ht'; simpl in Ht'; congruence.
    + (* connection *)
      rewrite H in Ht'. case_decide; simpl in Ht'; congruence.
    + (* close *)
      destruct H as (o' & H & _ & Hl & _). rewrite H in Ht'. simpl in Ht'. congruence.
    + (* update *)
      destruct (ydocs s !! ydoc) as [y|] eqn:Hy.
      * case_decide as Hin.
        -- right. exists ydoc, y, now. eauto.
        -- rewrite H in Ht'. simpl in Ht'. congruence.
      * rewrite H in Ht'. simpl in Ht'. congruence.
Qed.

(** *** Sockets and the collaborator count *)

Lemma ensureDocument_frame docName now s :
  sockets (ensureDocument docName now s) = sockets s.
Proof.
  unfold ensureDocument. destruct (documents s !! docName); [done|]. simpl.
  by destruct (documentMetadata s !! docName).
Qed.

Lemma ensureDocument_present docName now s :
  is_Some (documents (ensureDocument docName now s) !! docName).
Proof.
  unfold ensureDocument. destruct (documents s !! docName) eqn:Hd; [by rewrite Hd|].
  simpl. destruct (documentMetadata s !! docName); simpl;
    rewrite lookup_insert_eq; eauto.
Qed.

Lemma ensureDocument_documentMetadata docName now s docId m :
  wf s → documentMetadata s !! docId = Some m →
  documentMetadata (ensureDocument docName now s) !! docId = Some m.
Proof.
  intros Hwf Hm. unfold ensureDocument.
  destruct (documents s !! docName) eqn:Hd; [done|]. simpl.
  apply (wf_same_presence _ _ Hwf) in Hd. rewrite Hd. simpl.
  rewrite lookup_insert_ne; [done|]. congruence.
Qed.

(** The socket the listener ran for, after the listener. *)
Lemma connection_socket reqUrl c now thr s :
  wf s →
  let docName := docNameOf reqUrl in
  let s' := (connection reqUrl c now thr s).1 in
  (connection reqUrl c now thr s).2 = nextLoc s
  ∧ (∀ ws', ws' ≠ nextLoc s → sockets s' !! ws' = sockets s !! ws')
  ∧ ∃ m d,
      documentMetadata s' !! docName = Some m
      ∧ documents s' !! docName = Some d
      ∧ sockets s' !! nextLoc s
        = Some (mkSocket [(m, c, docName)]
                  (if thr then None else Some (SetupWithDoc docName d)) thr false).
Proof.
  intros Hwf docName s'. subst s'. unfold connection. simpl. fold docName.
  set (s0 := log _ _).
  assert (wf s0) as Hwf0 by (apply wf_log, (wf_newSocket _ Hwf)).
  pose proof (wf_ensureDocument docName now s0 Hwf0) as Hwf1.
  pose proof (ensureDocument_frame docName now s0) as Hs1.
  destruct (ensureDocument_present docName now s0) as [d Hd1].
  set (s1 := ensureDocument docName now s0) in *.
  assert (is_Some (documentMetadata s1 !! docName)) as [m Hm1].
  { apply elem_of_dom. rewrite <- (wf_dom _ Hwf1). apply elem_of_dom. eauto. }
  rewrite (joinCollaborators_Some _ _ _ _ _ Hm1).
  set (s2 := set_sockets _ _).
  assert (documents s2 !! docName = Some d) as Hd2 by done.
  destruct (setupSync_frame (nextLoc s) docName thr s2) as (HS1 & HS2 & _).
  rewrite HS1, HS2, (setupSync_sockets _ _ _ _ _ Hd2). subst s2. simpl.
  rewrite Hs1. subst s0. simpl. split; [done|]. split.
  - intros ws' Hne. by rewrite !lookup_alter_ne, lookup_insert_ne.
  - exists m, d. split_and!; try done.
    rewrite !lookup_alter_eq, lookup_insert_eq. by destruct thr.
Qed.

(** The reported count is the size of the stored collaborator set. *)
Lemma collaboratorCount_Some s docId o :
  metadataOf s docId = Some o →
  collaboratorCount s docId = Some (size (collaborators o)).
Proof. intros H. unfold collaboratorCount. by rewrite H. Qed.

Lemma size_addCollaborator c o :
  c ∉ collaborators o →
  size (collaborators (addCollaborator c o)) = S (size (collaborators o)).
Proof.
  intros Hc. simpl.
  rewrite size_union by (by apply disjoint_singleton_l).
  by rewrite size_singleton.
Qed.

Lemma size_deleteCollaborator c o :
  c ∈ collaborators o →
  S (size (collaborators (deleteCollaborator c o))) = size (collaborators o).
Proof.
  intros Hc. simpl.
  assert (size (collaborators o) ≠ 0) as Hpos.
  { intros H0. apply size_empty_inv in H0. apply (not_elem_of_empty (C:=gset string) c).
    by apply H0. }
  rewrite size_difference by (by apply singleton_subseteq_l).
  rewrite size_singleton. lia.
Qed.

Lemma next_documentMetadata s e docId m :
  wf s → uuidFresh s e → e ≠ DeleteDocument docId →
  documentMetadata s !! docId = Some m →
  documentMetadata (next s e) !! docId = Some m.
Proof.
  intros Hwf Hfresh Hne Hm. destruct e; unfold next; simpl; rewrite ?socketMessage_state; try done.
  - unfold getDocument. by destruct (metadataOf s docId0).
  - destruct Hfresh as [_ Hfresh]. rewrite lookup_insert_ne; [done|]. congruence.
  - unfold putTitle. by destruct (documentMetadata s !! docId0).
  - unfold deleteDocument. destruct (documents s !! docId0); simpl; [|done].
    rewrite lookup_delete_ne; [done|]. congruence.
  - unfold connection. simpl.
    set (s0 := log _ _).
    assert (wf s0) as Hwf0 by (apply wf_log, (wf_newSocket _ Hwf)).
    destruct (setupSync_frame (nextLoc s) (docNameOf reqUrl) setupThrows
                (joinCollaborators (nextLoc s) (docNameOf reqUrl) uuid
                   (ensureDocument (docNameOf reqUrl) now s0))) as (_ & -> & _).
    destruct (joinCollaborators_frame (nextLoc s) (docNameOf reqUrl) uuid
                (ensureDocument (docNameOf reqUrl) now s0)) as (_ & -> & _).
    by apply ensureDocument_documentMetadata.
  - by destruct (socketClosed_frame ws s) as (_ & -> & _).
  - unfold docUpdated. destruct (ydocs s !! ydoc) as [y|]; [|done].
    by destruct (updateListeners_frame now (updateObservers y) s) as (_ & -> & _).
Qed.

Lemma socketClosed_sockets x s ws :
  ws ≠ x → sockets (socketClosed x s) !! ws = sockets s !! ws.
Proof.
  intros Hne. unfold socketClosed. destruct (sockets s !! x) as [w|]; [|done].
  destruct (closeEmitted w); [done|].
  destruct (closeListeners_frame (closeHandlers w)
              (set_sockets (alter emitClose x) s)) as (_ & _ & _ & -> & _).
  simpl. by rewrite lookup_alter_ne.
Qed.

Lemma socketClosed_handlers x s ws :
  closeHandlers <$> sockets (socketClosed x s) !! ws
  = closeHandlers <$> sockets s !! ws.
Proof.
  unfold socketClosed. destruct (sockets s !! x) as [w|] eqn:Hx; [|done].
  destruct (closeEmitted w); [done|].
  destruct (closeListeners_frame (closeHandlers w)
              (set_sockets (alter emitClose x) s)) as (_ & _ & _ & -> & _).
  simpl. destruct (decide (ws = x)) as [->|Hne].
  - by rewrite lookup_alter_eq, Hx.
  - by rewrite lookup_alter_ne.
Qed.

Lemma next_sockets s e ws :
  wf s → is_Some (sockets s !! ws) → e ≠ WsClose ws →
  sockets (next s e) !! ws = sockets s !! ws.
Proof.
  intros Hwf Hws Hne. destruct e; unfold next; simpl; rewrite ?socketMessage_state; try done.
  - unfold getDocument. by destruct (metadataOf s docId).
  - unfold putTitle. by destruct (documentMetadata s !! docId).
  - unfold deleteDocument. by destruct (documents s !! docId).
  - destruct (connection_socket reqUrl uuid now setupThrows s Hwf) as (_ & H & _).
    apply H. apply (wf_sockets_lt _ Hwf) in Hws. lia.
  - apply socketClosed_sockets. congruence.
  - unfold docUpdated. destruct (ydocs s !! ydoc) as [y|]; [|done].
    by destruct (updateListeners_frame now (updateObservers y) s)
      as (_ & _ & _ & -> & _).
Qed.

Lemma next_other_handlers s e ws c :
  wf s → uuidFresh s e →
  (∃ w h, sockets s !! ws = Some w ∧ h ∈ closeHandlers w ∧ h.1.2 = c) →
  (∀ ws' w' h, ws' ≠ ws → sockets s !! ws' = Some w' →
               h ∈ closeHandlers w' → h.1.2 ≠ c) →
  ∀ ws' w' h, ws' ≠ ws → sockets (next s e) !! ws' = Some w' →
              h ∈ closeHandlers w' → h.1.2 ≠ c.
Proof.
  intros Hwf Hfresh (w & h0 & Hw & Hh0 & Hc0) Huniq ws' w' h Hne Hw' Hh.
  destruct e;
    [rewrite ?next_message in Hw'; simpl in Hw'..
    |change (sockets (connection reqUrl uuid now setupThrows s).1 !! ws' = Some w')
       in Hw'
    |change (sockets (socketClosed ws0 s) !! ws' = Some w') in Hw'
    |change (sockets (docUpdated ydoc now s) !! ws' = Some w') in Hw'];
    try (by eapply Huniq).
  - unfold next in Hw'. simpl in Hw'.
    unfold getDocument in Hw'. destruct (metadataOf s docId); by eapply Huniq.
  - unfold next in Hw'. simpl in Hw'.
    unfold putTitle in Hw'. destruct (documentMetadata s !! docId); by eapply Huniq.
  - unfold next in Hw'. simpl in Hw'.
    unfold deleteDocument in Hw'. destruct (documents s !! docId); by eapply Huniq.
  - destruct (connection_socket reqUrl uuid now setupThrows s Hwf)
      as (_ & Hold & m & d & _ & _ & Hnew).
    destruct (decide (ws' = nextLoc s)) as [->|Hn].
    + rewrite Hnew in Hw'. injection Hw' as <-. simpl in Hh.
      apply list_elem_of_singleton in Hh as ->. simpl.
      destruct Hfresh as [_ Hfresh]. intros ->.
      pose proof (Hfresh _ _ Hw) as Hall. simpl in Hall.
      rewrite Forall_forall in Hall. by apply (Hall _ Hh0).
    + rewrite Hold in Hw' by done. by eapply Huniq.
  - pose proof (socketClosed_handlers ws0 s ws') as Heq. rewrite Hw' in Heq.
    destruct (sockets s !! ws') as [w0|] eqn:Hw0; [|done].
    simpl in Heq. injection Heq as Heq. rewrite Heq in Hh. by eapply Huniq.
  - unfold docUpdated in Hw'. destruct (ydocs s !! ydoc) as [y|]; [|by eapply Huniq].
    destruct (updateListeners_frame now (updateObservers y) s)
      as (_ & _ & _ & Hs & _).
    rewrite Hs in Hw'. by eapply Huniq.
Qed.

Lemma socketClosed_keeps x s m o c :
  metas s !! m = Some o → c ∈ collaborators o →
  (∀ w h, sockets s !! x = Some w → h ∈ closeHandlers w → h.1.2 ≠ c) →
  ∃ o', metas (socketClosed x s) !! m = Some o' ∧ c ∈ collaborators o'.
Proof.
  intros Ho Hc Hx. unfold socketClosed.
  destruct (sockets s !! x) as [w|] eqn:Hw; [|eauto].
  destruct (closeEmitted w); [eauto|].
  destruct (closeListeners_metas (closeHandlers w)
              (set_sockets (alter emitClose x) s) m o Ho)
    as (o' & Ho' & _ & _ & _ & Hkeep).
  exists o'. split; [done|]. apply Hkeep; [done|].
  apply Forall_forall. intros h Hh. by eapply Hx.
Qed.

Lemma connection_counted reqUrl c now thr s :
  wf s → freshCollaborator s c →
  counted (connection reqUrl c now thr s).1 (nextLoc s) (docNameOf reqUrl) c.
Proof.
  intros Hwf [Hf1 Hf2].
  destruct (connection_socket reqUrl c now thr s Hwf)
    as (_ & Hold & m & d & Hm & Hd & Hw).
  pose proof (wf_connection reqUrl c now thr s Hwf) as Hwf'.
  destruct (wf_meta _ Hwf' _ _ Hm) as [o' Ho'].
  exists m, (mkSocket [(m, c, docNameOf reqUrl)]
               (if thr then None else Some (SetupWithDoc (docNameOf reqUrl) d))
               thr false), o'.
  split_and!; try done.
  - assert (metadataOf (connection reqUrl c now thr s).1 (docNameOf reqUrl) = Some o')
      as Hmo by (apply metadataOf_Some; eauto).
    destruct (metadataOf s (docNameOf reqUrl)) as [o|] eqn:Ho.
    + rewrite (connection_metadata _ _ _ _ _ _ _ Hwf Ho), decide_True in Hmo by done.
      injection Hmo as <-. simpl. set_solver.
    + destruct (connection_outcome s reqUrl c now thr)
        as (y & w & _ & _ & _ & _ & _ & _ & Hnew).
      assert (documentMetadata s !! docNameOf reqUrl = None) as Hnone.
      { unfold metadataOf in Ho.
        destruct (documentMetadata s !! docNameOf reqUrl) as [m0|] eqn:Hm0; [|done].
        destruct (wf_meta _ Hwf _ _ Hm0) as [? Hx]. simpl in Ho. congruence. }
      destruct Hnew as (_ & _ & Hnew & _); [by apply (wf_same_presence _ _ Hwf)|].
      rewrite (Hnew Hnone) in Hmo. injection Hmo as <-. simpl. set_solver.
  - intros ws' w' h Hne Hw' Hh. rewrite Hold in Hw' by done.
    pose proof (Hf2 _ _ Hw') as Hall. simpl in Hall.
    rewrite Forall_forall in Hall. by apply Hall.
Qed.

Lemma counted_next s e ws docName c :
  wf s → counted s ws docName c →
  uuidFresh s e → e ≠ DeleteDocument docName → e ≠ WsClose ws →
  counted (next s e) ws docName c.
Proof.
  intros Hwf (m & w & o & Hm & Hw & Hem & Hh & Ho & Hc & Huniq) Hfresh Hnd Hnc.
  pose proof (next_documentMetadata s e docName m Hwf Hfresh Hnd Hm) as Hm'.
  assert (∃ o', metas (next s e) !! m = Some o' ∧ c ∈ collaborators o')
    as (o' & Ho' & Hc').
  { assert ((∃ x, e = WsClose x) ∨ ¬ ∃ x, e = WsClose x) as [[x ->]|Hnot]
      by (destruct e; eauto; right; by intros [? ?]).
    - apply (socketClosed_keeps x s m o c Ho Hc).
      intros w0 h Hw0 Hh0. apply (Huniq x w0 h); [congruence|done..].
    - assert (metadataOf s docName = Some o) as Hmo by (apply metadataOf_Some; eauto).
      pose proof (next_metadata s e docName o Hwf Hmo) as H.
      assert (∃ o', metadataOf (next s e) docName = Some o' ∧ c ∈ collaborators o')
        as (o' & Hmo' & Hc').
      { destruct e; simpl in H; eauto.
        - destruct Hfresh as [_ Hfresh]. rewrite decide_False in H by congruence. eauto.
        - case_decide; eauto.
        - rewrite decide_False in H by congruence. eauto.
        - case_decide; eexists; (split; [done|]); [simpl; set_solver|done].
        - exfalso. apply Hnot. eauto.
        - destruct (ydocs s !! ydoc); [case_decide|]; eauto. }
      apply metadataOf_Some in Hmo' as (m' & Hm1 & Ho1).
      assert (m' = m) as -> by congruence. eauto. }
  exists m, w, o'. split_and!; try done.
  - rewrite next_sockets; eauto.
  - apply next_other_handlers; [done..| |done].
    exists w, (m, c, docName). rewrite Hh. split_and!; [done| |done]. by left.
Qed.

Lemma undisturbed_run ws docName c evs s :
  wf s → counted s ws docName c → undisturbed ws docName s evs →
  counted (run s evs) ws docName c.
Proof.
  revert s. induction evs as [|e evs IH]; intros s Hwf Hc Hu; simpl; [done|].
  destruct Hu as (Hf & Hnd & Hnc & Hu).
  apply IH; [by apply wf_next|by apply counted_next|done].
Qed.

(** Closing a counted connection takes exactly its own id out of the set
    the document reports. *)
Lemma counted_close s ws docName c :
  counted s ws docName c →
  ∃ o, metadataOf s docName = Some o
       ∧ c ∈ collaborators o
       ∧ metadataOf (socketClosed ws s) docName = Some (deleteCollaborator c o).
Proof.
  intros (m & w & o & Hm & Hw & Hem & Hh & Ho & Hc & _).
  exists o. split; [apply metadataOf_Some; eauto|]. split; [done|].
  unfold socketClosed. rewrite Hw, Hem, Hh. simpl.
  unfold metadataOf. simpl. rewrite Hm. simpl. by rewrite lookup_alter_eq, Ho.
Qed.

(** *** Connections and the reported collaborator count *)

Lemma collaboratorCount_reported s docId :
  collaboratorCount s docId
  = match (getDocument docId s).2 with
    | RDocument info => Some (info_collaboratorCount info)
    | _ => None
    end.
Proof.
  unfold collaboratorCount, getDocument. by destruct (metadataOf s docId).
Qed.

(** C4: on a reachable server, a WebSocket connection to a document raises
    the collaborator count reported for it by exactly one (from zero when the
    connection created the document) and leaves the title of an existing
    document alone. Whatever happens in between, short of deleting the
    document or closing this same socket, the "close" event of the socket
    lowers the reported count by exactly one and leaves the title alone; with
    nothing in between the count is back at its value before the
    connection. *)
Theorem session_count_connect_close
    (s : State) (reqUrl : option string) (c : string) (now : Date) (thr : bool)
    (evs : list Event) :
  let docName := docNameOf reqUrl in
  let s1 := (connection reqUrl c now thr s).1 in
  let ws := (connection reqUrl c now thr s).2 in
  let s2 := run s1 evs in
  let s3 := socketClosed ws s2 in
  reachable s → freshCollaborator s c →
  undisturbed ws docName s1 evs →
  collaboratorCount s1 docName = Some (S (default 0 (collaboratorCount s docName)))
  ∧ (is_Some (titleOf s docName) → titleOf s1 docName = titleOf s docName)
  ∧ (∃ k, collaboratorCount s2 docName = Some (S k)
          ∧ collaboratorCount s3 docName = Some k)
  ∧ titleOf s3 docName = titleOf s2 docName
  ∧ collaboratorCount (socketClosed ws s1) docName
    = Some (default 0 (collaboratorCount s docName)).
Proof.
  intros docName s1 ws s2 s3 Hr Hfresh Hund.
  apply wf_reachable in Hr as Hwf.
  destruct (connection_socket reqUrl c now thr s Hwf) as (Hws & _).
  pose proof (connection_counted reqUrl c now thr s Hwf Hfresh) as Hc1.
  fold docName s1 in Hc1. rewrite <- Hws in Hc1. fold ws in Hc1.
  assert (collaboratorCount s1 docName
          = Some (S (default 0 (collaboratorCount s docName)))) as Hup.
  { destruct (metadataOf s docName) as [o|] eqn:Ho.
    - rewrite (collaboratorCount_Some _ _ _ Ho). simpl. subst s1.
      erewrite collaboratorCount_Some
        by (rewrite (connection_metadata _ _ _ _ _ _ _ Hwf Ho), decide_True by done;
            done).
      rewrite size_addCollaborator; [done|].
      apply metadataOf_Some in Ho as (m & _ & Ho). destruct Hfresh as [Hf _].
      by apply (Hf _ _ Ho).
    - unfold collaboratorCount at 2. rewrite Ho. simpl.
      destruct (connection_outcome s reqUrl c now thr)
        as (y & w & _ & _ & _ & _ & _ & _ & Hnew).
      assert (documentMetadata s !! docName = None) as Hnone.
      { unfold metadataOf in Ho.
        destruct (documentMetadata s !! docName) as [m0|] eqn:Hm0; [|done].
        destruct (wf_meta _ Hwf _ _ Hm0) as [? Hx]. simpl in Ho. congruence. }
      destruct Hnew as (_ & _ & Hnew & _); [by apply (wf_same_presence _ _ Hwf)|].
      erewrite collaboratorCount_Some by (by apply Hnew).
      cbn [collaborators]. by rewrite size_singleton. }
  split; [done|]. split.
  { intros [t Ht]. unfold titleOf in *.
    destruct (metadataOf s docName) as [o|] eqn:Ho; [|done]. subst s1.
    rewrite (connection_metadata _ _ _ _ _ _ _ Hwf Ho), decide_True by done.
    done. }
  pose proof (wf_connection reqUrl c now thr s Hwf) as Hwf1. fold s1 in Hwf1.
  pose proof (undisturbed_run ws docName c evs s1 Hwf1 Hc1 Hund) as Hc2.
  fold s2 in Hc2.
  destruct (counted_close _ _ _ _ Hc2) as (o2 & Ho2 & Hin2 & Ho3). fold s3 in Ho3.
  split.
  { exists (size (collaborators (deleteCollaborator c o2))).
    rewrite (collaboratorCount_Some _ _ _ Ho2), (collaboratorCount_Some _ _ _ Ho3).
    by rewrite size_deleteCollaborator. }
  split.
  { unfold titleOf. by rewrite Ho2, Ho3. }
  destruct (counted_close _ _ _ _ Hc1) as (o1 & Ho1 & Hin1 & Ho1').
  rewrite (collaboratorCount_Some _ _ _ Ho1').
  rewrite (collaboratorCount_Some _ _ _ Ho1) in Hup.
  pose proof (size_deleteCollaborator c o1 Hin1) as Hsz. congruence.
Qed.

(** C10: on a reachable server, a WebSocket connection to a name with no
    stored document is not turned away. The listener stores a new Y.Doc (not
    destroyed, observed only by this connection's update listener) under the
    name and, no metadata record existing for it, a record titled "Untitled
    Document" whose only collaborator is this connection; then it calls
    [setupWSConnection] with the document, which is the call it makes for a
    document that already existed. The listener closes the socket only when
    that library call raises. *)
Theorem connection_creates_missing_document
    (s : State) (reqUrl : option string) (c : string) (now : Date) (thr : bool) :
  let docName := docNameOf reqUrl in
  let s' := (connection reqUrl c now thr s).1 in
  let ws := (connection reqUrl c now thr s).2 in
  reachable s →
  documents s !! docName = None →
  ∃ ydoc w,
    ydocs s !! ydoc = None
    ∧ documents s' !! docName = Some ydoc
    ∧ ydocs s' !! ydoc = Some (mkYDoc false (if thr then [] else [docName]))
    ∧ metadataOf s docName = None
    ∧ metadataOf s' docName = Some (mkMetadata (Some "Untitled Document") now {[c]})
    ∧ sockets s' !! ws = Some w
    ∧ setupDone w = (if thr then None else Some (SetupWithDoc docName ydoc))
    ∧ closeCalled w = thr
    ∧ closeEmitted w = false
    ∧ ∀ s0 d, documents s0 !! docName = Some d →
        ∃ w0, sockets (connection reqUrl c now thr s0).1
                !! (connection reqUrl c now thr s0).2 = Some w0
              ∧ setupDone w0 = (if thr then None else Some (SetupWithDoc docName d))
              ∧ closeCalled w0 = thr.
Proof.
  intros docName s' ws Hr Hdoc. apply wf_reachable in Hr as Hwf.
  apply (wf_same_presence _ _ Hwf) in Hdoc as Hmeta.
  destruct (connection_outcome s reqUrl c now thr)
    as (ydoc & w & Hd & Hw & Hsetup & Hcc & Hce & _ & Hnew).
  destruct (Hnew Hdoc) as (Hy & Hfresh & Hm & _).
  exists ydoc, w. split_and!; try done.
  - by apply Hfresh.
  - unfold metadataOf. by rewrite Hmeta.
  - by apply Hm.
  - intros s0 d Hd0.
    destruct (connection_outcome s0 reqUrl c now thr)
      as (ydoc0 & w0 & _ & Hw0 & Hsetup0 & Hcc0 & _ & Hsame & _).
    exists w0. rewrite <- (Hsame d Hd0). done.
Qed.

Lemma connection_creates_missing_document_witness :
  let s := run initial [PostDocument "a" None "http" "host" 1%Z] in
  let s' := (connection (Some "/notes?user=7") "u1" 9%Z false s).1 in
  docNameOf (Some "/notes?user=7") = "notes"
  ∧ metadataOf s' "notes" = Some (mkMetadata (Some "Untitled Document") 9%Z {["u1"]})
  ∧ ∃ ydoc, documents s' !! "notes" = Some ydoc
            ∧ ydocs s' !! ydoc = Some (mkYDoc false ["notes"]).
Proof.
  intros s s'.
  destruct (connection_creates_missing_document s (Some "/notes?user=7") "u1" 9%Z false)
    as (ydoc & w & _ & Hd & Hy & _ & Hm & _).
  - by eexists.
  - vm_compute. reflexivity.
  - split; [reflexivity|]. split; [exact Hm|]. exists ydoc. split; [exact Hd|exact Hy].
Defined.

Lemma metadata_lifecycle_witness :
  let s := run initial [PostDocument "a" (Some "Plan") "http" "host" 1%Z;
                        WsConnection (Some "/a") "u1" 2%Z false] in
  metadataOf (next s (PutTitle "a" (Some "Notes") 5%Z)) "a"
  = Some (mkMetadata (Some "Notes") 5%Z {["u1"]})
  ∧ metadataOf (next s (YDocUpdate 0 6%Z)) "a"
    = Some (mkMetadata (Some "Plan") 6%Z {["u1"]})
  ∧ metadataOf (next s (DeleteDocument "a")) "a" = None.
Proof.
  intros s.
  destruct (metadata_lifecycle s "a") as (_ & Hput & Hupd & Hdel & _); [by eexists|].
  assert (metadataOf s "a" = Some (mkMetadata (Some "Plan") 1%Z {["u1"]})) as Ho
    by (vm_compute; reflexivity).
  assert (documents s !! "a" = Some 0) as Hd by (vm_compute; reflexivity).
  assert (ydocs s !! 0 = Some (mkYDoc false ["a"])) as Hy by (vm_compute; reflexivity).
  assert ("a" ∈ updateObservers (mkYDoc false ["a"])) as Hin
    by (apply list_elem_of_singleton; reflexivity).
  split; [|split].
  - exact (Hput _ (Some "Notes") 5%Z Ho).
  - exact (Hupd _ _ _ 6%Z Ho Hd Hy Hin).
  - apply Hdel. exists 0. exact Hd.
Defined.

Lemma timestamp_updates_witness :
  let s := run initial [PostDocument "a" (Some "Plan") "http" "host" 1%Z;
                        WsConnection (Some "/a") "u1" 2%Z false] in
  lastModifiedOf (next s (PutTitle "a" (Some "Notes") 5%Z)) "a" = Some 5%Z
  ∧ lastModifiedOf (next s (YDocUpdate 0 6%Z)) "a" = Some 6%Z.
Proof.
  intros s.
  destruct (timestamp_updates s "a") as (Hput & Hupd & _); [by eexists|].
  split.
  - apply Hput. eexists. vm_compute. reflexivity.
  - apply (Hupd 0 (mkYDoc false ["a"])).
    + vm_compute. reflexivity.
    + vm_compute. reflexivity.
    + apply list_elem_of_singleton. reflexivity.
Defined.

Lemma session_count_connect_close_witness :
  let s := run initial [PostDocument "a" (Some "Plan") "http" "host" 1%Z;
                        WsConnection (Some "/a") "u0" 2%Z false] in
  let s1 := (connection (Some "/a?x=1") "u1" 3%Z false s).1 in
  let ws := (connection (Some "/a?x=1") "u1" 3%Z false s).2 in
  let evs := [PutTitle "a" (Some "Notes") 4%Z;
              WsConnection (Some "/a") "u2" 5%Z false;
              WsClose 2] in
  collaboratorCount s "a" = Some 1
  ∧ collaboratorCount s1 "a" = Some 2
  ∧ collaboratorCount (socketClosed ws s1) "a" = Some 1
  ∧ ∃ k, collaboratorCount (run s1 evs) "a" = Some (S k)
         ∧ collaboratorCount (socketClosed ws (run s1 evs)) "a" = Some k.
Proof.
  intros s s1 ws evs.
  assert (reachable s) as Hr by (by eexists).
  assert (freshCollaborator s "u1") as Hf.
  { refine (bool_decide_unpack _ _). vm_compute. exact I. }
  assert (undisturbed ws "a" s1 evs) as Hu.
  { repeat split; try discriminate;
      refine (bool_decide_unpack _ _); vm_compute; exact I. }
  destruct (session_count_connect_close s (Some "/a?x=1") "u1" 3%Z false evs Hr Hf Hu)
    as (Hup & _ & Hk & _ & Hback).
  split; [vm_compute; reflexivity|].
  split; [exact Hup|]. split; [exact Hback|exact Hk].
Defined.

(** *** Content deltas and the metadata record *)

(** After a connection whose set-up returned, the update listener sits on the
    stored Y.Doc and the set-up call was made with that Y.Doc as [doc]. *)
Lemma connection_listener reqUrl c now s :
  wf s →
  let docName := docNameOf reqUrl in
  let s' := (connection reqUrl c now false s).1 in
  ∃ d y w,
    documents s' !! docName = Some d
    ∧ ydocs s' !! d = Some y
    ∧ docName ∈ updateObservers y
    ∧ sockets s' !! nextLoc s = Some w
    ∧ setupDone w = Some (SetupWithDoc docName d)
    ∧ closeEmitted w = false.
Proof.
  intros Hwf docName s'.
  destruct (connection_socket reqUrl c now false s Hwf)
    as (_ & _ & m & d & _ & Hd & Hw). fold docName s' in Hd, Hw.
  pose proof (wf_connection reqUrl c now false s Hwf) as Hwf'. fold s' in Hwf'.
  destruct (wf_docs _ Hwf' _ _ Hd) as [y Hy].
  exists d, y. eexists. split_and!; [done..| |exact Hw|done|done].
  revert Hd Hy. subst s'. unfold connection. simpl. fold docName.
  set (s2 := joinCollaborators _ _ _ _).
  destruct (setupSync_frame (nextLoc s) docName false s2) as (-> & _).
  intros Hd. rewrite (setupSync_ydocs _ _ _ _ _ Hd), lookup_alter_eq.
  destruct (ydocs s2 !! d) as [y0|]; [|done]. simpl. intros [= <-]. simpl.
  apply elem_of_app. right. by left.
Qed.

(** One step of a run that leaves the document alone keeps its timestamp. *)
Lemma next_lastModified s e docId t :
  wf s → uuidFresh s e → e ≠ DeleteDocument docId →
  (∀ t' now, e ≠ PutTitle docId t' now) → (∀ d now, e ≠ YDocUpdate d now) →
  lastModifiedOf s docId = Some t →
  lastModifiedOf (next s e) docId = Some t.
Proof.
  intros Hwf Hfresh Hdel Hput Hupd Ht. unfold lastModifiedOf in *.
  destruct (metadataOf s docId) as [o|] eqn:Ho; [|done].
  simpl in Ht. injection Ht as <-.
  pose proof (next_metadata s e docId o Hwf Ho) as H.
  destruct e; simpl in H; try (by rewrite H).
  - destruct Hfresh as [_ Hfresh]. case_decide as Hd; [|by rewrite H].
    subst. apply metadataOf_Some in Ho as (m & Hm & _). congruence.
  - case_decide as Hd; [|by rewrite H]. subst. by destruct (Hput t now).
  - case_decide as Hd; [|by rewrite H]. subst. by destruct Hdel.
  - rewrite H. by case_decide.
  - destruct H as (o' & -> & _ & Hl & _). simpl. by rewrite Hl.
  - by destruct (Hupd ydoc now).
Qed.

(** C2: a content update does not mutate the metadata record. The
    connection listener registers its update listener on the stored Y.Doc and
    hands that Y.Doc to [setupWSConnection] as [doc], which is not an option
    the function is declared with. A delta then arrives as a message on the
    socket: it goes to the library under the document name alone, the record
    of the document is what it was, and GET answers as before. *)
Theorem content_update_leaves_record
    (s : State) (reqUrl : option string) (c : string) (now now' : Date) :
  let docName := docNameOf reqUrl in
  let ws := nextLoc s in
  let s1 := next s (WsConnection reqUrl c now false) in
  let s2 := next s1 (WsMessage ws now') in
  reachable s →
  (∃ d y w,
      documents s1 !! docName = Some d
      ∧ ydocs s1 !! d = Some y
      ∧ docName ∈ updateObservers y
      ∧ sockets s1 !! ws = Some w
      ∧ setupDone w = Some (SetupWithDoc docName d))
  ∧ step s1 (WsMessage ws now') = (s1, ToLibrary docName)
  ∧ metadataOf s2 docName = metadataOf s1 docName
  ∧ (step s2 (GetDocument docName)).2 = (step s1 (GetDocument docName)).2.
Proof.
  intros docName ws s1 s2 Hr. apply wf_reachable in Hr as Hwf.
  destruct (connection_listener reqUrl c now s Hwf)
    as (d & y & w & Hd & Hy & Hin & Hw & Hsetup & Hopen).
  fold docName in Hd, Hy, Hin, Hw, Hsetup.
  change (connection reqUrl c now false s).1 with s1 in Hd, Hy, Hw.
  assert (step s1 (WsMessage ws now') = (s1, ToLibrary docName)) as Hstep.
  { simpl. unfold socketMessage. fold ws in Hw. by rewrite Hw, Hopen, Hsetup. }
  assert (s2 = s1) as -> by (subst s2; unfold next; by rewrite Hstep).
  split_and!; [|done..]. exists d, y, w. by split_and!.
Qed.

(** C3: an accepted content delta does not update the last-modified
    timestamp. Deltas arrive as messages on sockets, and over any run of
    what the server receives (messages on any socket included) that neither
    puts a title on the document nor deletes it, the timestamp of the
    document stays what it was. *)
Theorem content_delta_leaves_timestamp
    (s : State) (evs : list Event) (docId : string) (t : Date) :
  reachable s →
  lastModifiedOf s docId = Some t →
  untouched docId s evs →
  lastModifiedOf (run s evs) docId = Some t.
Proof.
  intros Hr. apply wf_reachable in Hr as Hwf. clear Hr.
  revert s Hwf. induction evs as [|e evs IH]; intros s Hwf Ht Hrun; [done|].
  destruct Hrun as (Hfresh & Hdel & Hput & Hupd & Hrun). simpl.
  apply IH; [by apply wf_next| |done].
  by apply next_lastModified.
Qed.

Lemma content_update_leaves_record_witness :
  let s1 := next initial (WsConnection (Some "/a") "u1" 1%Z false) in
  let s2 := next s1 (WsMessage 0 5%Z) in
  metadataOf s1 "a" = Some (mkMetadata (Some "Untitled Document") 1%Z {["u1"]})
  ∧ step s1 (WsMessage 0 5%Z) = (s1, ToLibrary "a")
  ∧ metadataOf s2 "a" = metadataOf s1 "a".
Proof.
  intros s1 s2. split; [vm_compute; reflexivity|].
  assert (reachable initial) as Hr by (by exists []).
  destruct (content_update_leaves_record initial (Some "/a") "u1" 1%Z 5%Z Hr)
    as (_ & Hstep & Hmeta & _).
  split; [exact Hstep|exact Hmeta].
Defined.

Lemma content_delta_leaves_timestamp_witness :
  let s := run initial [WsConnection (Some "/a") "u1" 1%Z false] in
  let evs := [WsMessage 0 5%Z; GetDocument "a"; WsMessage 0 9%Z] in
  lastModifiedOf s "a" = Some 1%Z
  ∧ lastModifiedOf (run s evs) "a" = Some 1%Z.
Proof.
  intros s evs.
  assert (lastModifiedOf s "a" = Some 1%Z) as Ht by (vm_compute; reflexivity).
  split; [exact Ht|].
  apply (content_delta_leaves_timestamp s evs "a" 1%Z).
  - by eexists.
  - exact Ht.
  - simpl. split_and!; done.
Defined.

End ServerFacts.

(** ** Facts about the presence view *)

Module PresenceFacts.
Import Presence.

Lemma visit_lookup self clientId state users c :
  visit self clientId state users !! c
  = if decide (c = clientId)
    then match user state with
         | Some u =>
             if decide (clientId ≠ self)
             then Some (mkConnectedUser (name u) (color u) (anchor <$> cursor state))
             else users !! c
         | None => users !! c
         end
    else users !! c.
Proof.
  unfold visit. destruct (user state) as [u|]; repeat case_decide; subst;
    try done; by rewrite ?lookup_insert_eq, ?lookup_insert_ne.
Qed.

(** What the listener stores for a session is decided by that session's
    current awareness state alone. *)
Lemma onChange_lookup self states prev c :
  connectedUsers (onChange self states prev) !! c
  = states !! c ≫= entryOf self c.
Proof.
  unfold onChange. simpl.
  apply (map_fold_weak_ind
           (λ r m, r !! c = m !! c ≫= entryOf self c)).
  - by rewrite !lookup_empty.
  - intros i x m r Hi IH. rewrite visit_lookup. case_decide as Hc.
    + subst. rewrite lookup_insert_eq. simpl. unfold entryOf.
      rewrite IH, Hi. simpl. by destruct (user x); [case_decide|].
    + by rewrite lookup_insert_ne.
Qed.

Lemma filter_key_absent {A} (l : list (nat * A)) (c : nat) :
  c ∉ l.*1 → filter (λ e, e.1 = c) l = [].
Proof.
  induction l as [|[k x] l IH]; [done|]. simpl. intros Hc.
  apply not_elem_of_cons in Hc as [Hne Hc].
  rewrite filter_cons_False by (simpl; congruence). by apply IH.
Qed.

Lemma NoDup_count_le_1 {A} (l : list (nat * A)) (c : nat) :
  NoDup l.*1 → (List.length (filter (λ e, e.1 = c) l) ≤ 1)%nat.
Proof.
  induction l as [|[k x] l IH]; simpl; [lia|].
  intros Hnd. apply NoDup_cons in Hnd as [Hk Hnd].
  destruct (decide (k = c)) as [->|Hne].
  - rewrite filter_cons_True by done. rewrite filter_key_absent by done. simpl. lia.
  - rewrite filter_cons_False by done. by apply IH.
Qed.

(** *** One entry per session *)

(** C5: whatever awareness states the change listener finds, the presence
    entries it leaves hold at most one entry per session identifier. When a
    session's record in the awareness map is replaced by a new one, the
    entries after the next change event hold, for that session, exactly the
    entry derived from the new record (none if the record has no user or is
    the observer's own), every other session's entry is as before, and there
    is still at most one entry per session. *)
Theorem presence_one_entry_per_session
    (self : nat) (states : gmap nat AwarenessState) (prev : View) :
  let v := onChange self states prev in
  NoDup (presenceEntries v).*1
  ∧ (∀ c, (List.length (filter (λ e, e.1 = c) (presenceEntries v)) ≤ 1)%nat)
  ∧ ∀ c new,
      let v' := onChange self (<[c := new]> states) v in
      connectedUsers v' !! c = entryOf self c new
      ∧ (∀ e, (c, e) ∈ presenceEntries v' → Some e = entryOf self c new)
      ∧ (∀ c', c' ≠ c → connectedUsers v' !! c' = connectedUsers v !! c')
      ∧ NoDup (presenceEntries v').*1
      ∧ (List.length (filter (λ e, e.1 = c) (presenceEntries v')) ≤ 1)%nat.
Proof.
  intros v. split; [apply NoDup_fst_map_to_list|]. split.
  { intros c. apply NoDup_count_le_1, NoDup_fst_map_to_list. }
  intros c new v'. split_and!.
  - subst v'. by rewrite onChange_lookup, lookup_insert_eq.
  - intros e He. apply elem_of_map_to_list in He.
    subst v'. by rewrite onChange_lookup, lookup_insert_eq in He.
  - intros c' Hne. subst v' v. by rewrite !onChange_lookup, lookup_insert_ne.
  - apply NoDup_fst_map_to_list.
  - apply NoDup_count_le_1, NoDup_fst_map_to_list.
Qed.

Lemma presence_one_entry_per_session_witness :
  let ann := mkAwarenessState (Some (mkUser "Smart Fox" "#FF6B6B")) None in
  let ann' := mkAwarenessState (Some (mkUser "Smart Fox" "#FF6B6B"))
                (Some (mkCursor 12)) in
  let v := onChange 1 {[ 1 := ann; 2 := ann ]} (mkView ∅ 0) in
  let v' := onChange 1 (<[2 := ann']> {[ 1 := ann; 2 := ann ]}) v in
  presenceEntries v' = [(2, mkConnectedUser "Smart Fox" "#FF6B6B" (Some 12))]
  ∧ ∀ e, (2, e) ∈ presenceEntries v' →
         Some e = Some (mkConnectedUser "Smart Fox" "#FF6B6B" (Some 12)).
Proof.
  intros ann ann' v v'. split; [vm_compute; reflexivity|].
  destruct (presence_one_entry_per_session 1 {[ 1 := ann; 2 := ann ]} (mkView ∅ 0))
    as (_ & _ & H).
  destruct (H 2 ann') as (_ & He & _). exact He.
Defined.

(** *** Expired sessions *)

(** C6: the presence entries are rebuilt from exactly the awareness states
    the change listener finds, whatever they were before: a session has an
    entry if and only if it has a state with a user and is not the observer
    itself. So a session that the presence channel expired, because its
    record was not refreshed within the liveness window or because it
    disconnected, has no entry afterwards, even if it had one before. *)
Theorem expired_session_absent
    (self : nat) (prev : View) (c : nat) :
  (∀ states,
     is_Some (connectedUsers (onChange self states prev) !! c)
     ↔ c ≠ self ∧ ∃ st, states !! c = Some st ∧ is_Some (user st))
  ∧ (∀ states, states !! c = None →
       connectedUsers (onChange self states prev) !! c = None
       ∧ ∀ e, (c, e) ∉ presenceEntries (onChange self states prev))
  ∧ (∀ window now aw l,
       aw !! c = Some l → (window ≤ now - refreshed l)%Z →
       connectedUsers (onChange self (getStates (sweep window now aw)) prev) !! c = None)
  ∧ (∀ aw, connectedUsers (onChange self (getStates (expire c aw)) prev) !! c = None)
  ∧ (∀ states, userCount (onChange self states prev) = size states).
Proof.
  split_and!.
  - intros states. rewrite onChange_lookup.
    destruct (states !! c) as [st|] eqn:Hst; simpl.
    + unfold entryOf. destruct (user st) as [u|] eqn:Hu.
      * case_decide as Hc.
        -- split; [|eauto]. intros _. split; [done|]. exists st. rewrite Hu. eauto.
        -- split; [by intros [? ?]|]. by intros [? _].
      * split; [by intros [? ?]|]. intros (_ & st' & [= <-] & [? Hx]). congruence.
    + split; [by intros [? ?]|]. by intros (_ & ? & ? & _).
  - intros states Hst.
    assert (connectedUsers (onChange self states prev) !! c = None) as Hnone
      by (by rewrite onChange_lookup, Hst).
    split; [done|]. intros e He. apply elem_of_map_to_list in He. congruence.
  - intros window now aw l Hl Hold. rewrite onChange_lookup.
    unfold getStates, sweep. rewrite lookup_fmap.
    rewrite map_lookup_filter_None_2; [done|].
    right. intros l' Hl'. simpl. assert (l' = l) as -> by congruence. lia.
  - intros aw. rewrite onChange_lookup. unfold getStates, expire.
    by rewrite lookup_fmap, lookup_delete_eq.
  - done.
Qed.

Lemma expired_session_absent_witness :
  let ann := mkAwarenessState (Some (mkUser "Quick Wolf" "#4ECDC4")) None in
  let aw := publish 3 ann 40%Z (publish 2 ann 10%Z ∅) in
  let before := onChange 1 (getStates aw) (mkView ∅ 0) in
  is_Some (connectedUsers before !! 2)
  ∧ connectedUsers (onChange 1 (getStates (sweep 30%Z 45%Z aw)) before) !! 2 = None.
Proof.
  intros ann aw before.
  destruct (expired_session_absent 1 before 2) as (Hiff & _ & Hsweep & _).
  split.
  - exists (mkConnectedUser "Quick Wolf" "#4ECDC4" None). vm_compute. reflexivity.
  - apply (Hsweep 30%Z 45%Z aw (mkLive ann 10%Z)).
    + vm_compute. reflexivity.
    + simpl. lia.
Defined.

End PresenceFacts.

(** ** Facts about the replicated document core *)

Module ReplicaFacts.
Import Replica.

(** *** Folding operations that commute and absorb repetition *)

Section fold_set.
Context {A B : Type} `{EqDecision A}.
Variable f : B → A → B.
Variable ok : A → A → Prop.
Hypothesis f_comm : ∀ x y s, ok x y → f (f s x) y = f (f s y) x.
Hypothesis f_idem : ∀ x s, f (f s x) x = f s x.

Local Abbreviation pairwise l :=
  (∀ x y, x ∈ (l : list A) → y ∈ (l : list A) → ok x y) (only parsing).

Lemma filter_all (P : A → Prop) `{∀ x, Decision (P x)} (l : list A) :
  Forall P l → filter P l = l.
Proof.
  induction 1 as [|x l Hx Hl IH]; [done|].
  by rewrite filter_cons_True, IH.
Qed.

Lemma pairwise_app_l (l k : list A) : pairwise (l ++ k)%list → pairwise l.
Proof. intros H x y Hx Hy. apply H; apply elem_of_app; by left. Qed.

Lemma pairwise_filter (P : A → Prop) `{∀ x, Decision (P x)} (l : list A) :
  pairwise l → pairwise (filter P l).
Proof.
  intros Hl x y Hx Hy. apply list_elem_of_filter in Hx as [_ Hx].
  apply list_elem_of_filter in Hy as [_ Hy]. by apply Hl.
Qed.

(** An operation present in the list can be taken out and applied last. *)
Lemma foldl_extract (l : list A) x s :
  pairwise l → x ∈ l →
  foldl f s l = f (foldl f s (filter (λ y, y ≠ x) l)) x.
Proof.
  induction l as [|y l IH] using rev_ind; intros Hp Hx.
  - by apply elem_of_nil in Hx.
  - rewrite foldl_snoc, filter_app.
    pose proof (pairwise_app_l _ _ Hp) as Hpl.
    destruct (decide (y = x)) as [->|Hne].
    + rewrite filter_cons_False, filter_nil, app_nil_r by (by intros []).
      destruct (decide (x ∈ l)) as [Hin|Hout].
      * by rewrite (IH Hpl Hin), f_idem.
      * f_equal. f_equal. symmetry. apply filter_all.
        apply Forall_forall. intros z Hz ->. done.
    + apply elem_of_app in Hx as [Hx|Hx];
        [|apply list_elem_of_singleton in Hx; congruence].
      rewrite filter_cons_True, filter_nil by done.
      rewrite foldl_snoc, (IH Hpl Hx). apply f_comm.
      apply Hp; apply elem_of_app; [by left|right; by left].
Qed.

(** The result only depends on which operations occur in the list. *)
Lemma foldl_same_elements (l1 l2 : list A) s :
  pairwise l1 → (∀ x, x ∈ l1 ↔ x ∈ l2) →
  foldl f s l1 = foldl f s l2.
Proof.
  revert l1. induction l2 as [|x l2 IH] using rev_ind; intros l1 Hp Hsame.
  - destruct l1 as [|y l1]; [done|].
    exfalso. eapply elem_of_nil. apply Hsame. by left.
  - assert (x ∈ l1) as Hx by (apply Hsame, elem_of_app; right; by left).
    rewrite foldl_snoc.
    destruct (decide (x ∈ l2)) as [Hin|Hout].
    + rewrite <- (IH l1 Hp).
      * by rewrite (foldl_extract l1 x s Hp Hx), f_idem.
      * intros y. rewrite Hsame, elem_of_app, list_elem_of_singleton.
        split; [by intros [?| ->]|by left].
    + rewrite (foldl_extract l1 x s Hp Hx). f_equal.
      apply IH; [by apply pairwise_filter|].
      intros y. rewrite list_elem_of_filter, Hsame, elem_of_app,
        list_elem_of_singleton.
      split; [by intros [? [?|?]]|]. intros Hy. split; [by intros ->|by left].
Qed.
End fold_set.

(** *** The last-writer-wins register *)

Lemma pairLtb_spec a b :
  pairLtb a b = true ↔ (a.1 < b.1 ∨ (a.1 = b.1 ∧ a.2 < b.2))%nat.
Proof.
  unfold pairLtb. rewrite orb_true_iff, andb_true_iff, !Nat.ltb_lt, Nat.eqb_eq.
  done.
Qed.

Lemma pairLtb_false a b :
  pairLtb a b = false ↔ (b.1 < a.1 ∨ (a.1 = b.1 ∧ b.2 ≤ a.2))%nat.
Proof.
  rewrite <- not_true_iff_false, pairLtb_spec. lia.
Qed.

Lemma winner_idem {V} st (v : V) cur :
  winner st v (Some (winner st v cur)) = winner st v cur.
Proof.
  unfold winner. destruct cur as [[st' v']|].
  - destruct (pairLtb st' st) eqn:E; [|by rewrite E].
    destruct (pairLtb st st) eqn:E'; [|done].
    apply pairLtb_spec in E'. lia.
  - destruct (pairLtb st st) eqn:E'; [|done].
    apply pairLtb_spec in E'. lia.
Qed.

Lemma winner_comm {V} st1 (v1 : V) st2 v2 cur :
  (st1 = st2 → v1 = v2) →
  winner st1 v1 (Some (winner st2 v2 cur))
  = winner st2 v2 (Some (winner st1 v1 cur)).
Proof.
  intros Hsame. unfold winner.
  destruct st1 as [t1 r1], st2 as [t2 r2].
  assert (∀ a b : nat * nat, a.1 = b.1 → a.2 = b.2 → a = b) as Hpair
    by (intros [] [] ? ?; simpl in *; congruence).
  destruct cur as [[[t0 r0] v0]|];
    repeat match goal with
           | |- context [pairLtb ?a ?b] =>
               let E := fresh "E" in destruct (pairLtb a b) eqn:E
           end;
    repeat match goal with
           | E : pairLtb _ _ = true |- _ => apply pairLtb_spec in E; simpl in E
           | E : pairLtb _ _ = false |- _ => apply pairLtb_false in E; simpl in E
           end;
    try done; try (exfalso; lia);
    assert ((t1, r1) = (t2, r2)) as Heq by (apply Hpair; simpl; lia);
    by rewrite Heq, (Hsame Heq).
Qed.

Section lww.
Context `{Countable K} {V : Type}.
Implicit Types (m : gmap K (Stamp * V)) (k : K) (st : Stamp) (v : V).

Lemma lwwPut_idem k st v m : lwwPut k st v (lwwPut k st v m) = lwwPut k st v m.
Proof.
  unfold lwwPut. by rewrite lookup_insert_eq, winner_idem, insert_insert_eq.
Qed.

Lemma lwwPut_comm k1 st1 v1 k2 st2 v2 m :
  (k1 = k2 → st1 = st2 → v1 = v2) →
  lwwPut k1 st1 v1 (lwwPut k2 st2 v2 m) = lwwPut k2 st2 v2 (lwwPut k1 st1 v1 m).
Proof.
  intros Hsame. unfold lwwPut. destruct (decide (k1 = k2)) as [->|Hne].
  - rewrite !lookup_insert_eq, !insert_insert_eq.
    f_equal. apply winner_comm. auto.
  - rewrite !lookup_insert_ne by done. by apply insert_insert_ne.
Qed.
End lww.

(** *** One operation at a time *)

Lemma applyOp_idem o s : applyOp (applyOp s o) o = applyOp s o.
Proof.
  destruct o; simpl.
  - destruct (items s !! id) eqn:Hid; simpl.
    + by rewrite Hid.
    + by rewrite lookup_insert_eq.
  - by rewrite (assoc_L (∪)), (idemp_L (∪)).
  - by rewrite lwwPut_idem.
  - by rewrite lwwPut_idem.
Qed.

Lemma applyOp_comm o1 o2 s :
  coherent o1 o2 → applyOp (applyOp s o1) o2 = applyOp (applyOp s o2) o1.
Proof.
  intros Hc. destruct o1 as [i a|i|i mk st v|i at_ st v],
                      o2 as [j b|j|j mk' st' v'|j at' st' v']; simpl in *;
    try done.
  - (* two insertions *)
    destruct (decide (i = j)) as [->|Hne].
    + rewrite (Hc eq_refl). by destruct (items s !! j).
    + destruct (items s !! i) eqn:Hi, (items s !! j) eqn:Hj; simpl;
        rewrite ?lookup_insert_ne, ?Hi, ?Hj by done; try done.
      f_equal. by apply insert_insert_ne.
  - by destruct (items s !! i).
  - by destruct (items s !! i).
  - by destruct (items s !! i).
  - by destruct (items s !! j).
  - by rewrite !(assoc_L (∪)), (comm_L (∪) {[j]}).
  - by destruct (items s !! j).
  - f_equal. apply lwwPut_comm. intros [= -> ->] ->. symmetry. by apply Hc.
  - by destruct (items s !! j).
  - f_equal. apply lwwPut_comm. intros [= -> ->] ->. symmetry. by apply Hc.
Qed.

(** *** Records and deliveries *)

Lemma deliver_join s rs : deliver s rs = foldl applyOp s (mjoin rs).
Proof.
  revert s. induction rs as [|r rs IH]; intros s; simpl; [done|].
  by rewrite foldl_app, IH.
Qed.

Lemma coherentOps_pairwise ops x y :
  coherentOps ops → x ∈ ops → y ∈ ops → coherent x y.
Proof.
  unfold coherentOps. rewrite Forall_forall. intros H Hx Hy.
  specialize (H x Hx). rewrite Forall_forall in H. by apply H.
Qed.

(** Two lists of operations drawn from one coherent collection and holding
    the same operations leave the same store. *)
Lemma applyOps_same_elements (all l1 l2 : list Op) s :
  coherentOps all → (∀ x, x ∈ l1 → x ∈ all) → (∀ x, x ∈ l1 ↔ x ∈ l2) →
  foldl applyOp s l1 = foldl applyOp s l2.
Proof.
  intros Hall Hsub Hsame.
  apply (foldl_same_elements applyOp coherent).
  - intros x y s' Hxy. by apply applyOp_comm.
  - intros x s'. apply applyOp_idem.
  - intros x y Hx Hy. eapply coherentOps_pairwise; eauto.
  - done.
Qed.

(** *** Convergence *)

(** C1: let [R] be a finite collection of update records whose operations
    respect the uniqueness of identifiers and stamps. Two replicas that start
    from the same store and are delivered the records of [R], each in its own
    order and with its own repetitions, every record of [R] at least once,
    end with the same store and therefore materialize the same sequence. In
    particular applying a record of [R] twice equals applying it once, and
    applying two records of [R] in either order yields the same store. *)
Theorem replicas_converge
    (s : Store) (R D1 D2 : list UpdateRecord) :
  coherentOps (mjoin R) →
  (∀ r, r ∈ D1 ↔ r ∈ R) →
  (∀ r, r ∈ D2 ↔ r ∈ R) →
  deliver s D1 = deliver s D2
  ∧ materialize (deliver s D1) = materialize (deliver s D2)
  ∧ (∀ r, r ∈ R → applyRemote (applyRemote s r) r = applyRemote s r)
  ∧ (∀ a b, a ∈ R → b ∈ R →
       applyRemote (applyRemote s a) b = applyRemote (applyRemote s b) a).
Proof.
  intros Hcoh H1 H2.
  assert (deliver s D1 = deliver s D2) as Heq.
  { rewrite !deliver_join. apply (applyOps_same_elements (mjoin R)); [done|..].
    - intros x. rewrite !list_elem_of_join. intros (r & Hx & Hr).
      exists r. split; [done|]. by apply H1.
    - intros x. rewrite !list_elem_of_join.
      split; intros (r & Hx & Hr); exists r; (split; [done|]).
      + by apply H2, H1.
      + by apply H1, H2. }
  split; [done|]. split; [by rewrite Heq|]. split.
  - intros r Hr. unfold applyRemote. rewrite <- foldl_app.
    apply (applyOps_same_elements (mjoin R)); [done|..].
    + intros x Hx. apply list_elem_of_join. exists r. split; [|done].
      apply elem_of_app in Hx. tauto.
    + intros x. rewrite elem_of_app. tauto.
  - intros a b Ha Hb. unfold applyRemote. rewrite <- !foldl_app.
    apply (applyOps_same_elements (mjoin R)); [done|..].
    + intros x Hx. apply list_elem_of_join.
      apply elem_of_app in Hx as [Hx|Hx]; eauto.
    + intros x. rewrite !elem_of_app. tauto.
Qed.

Lemma replicas_converge_witness :
  let r0 := [Insert (1, 1) (mkItem None "i" [] [(HeadingLevel, 2)])] in
  let ra := [Insert (1, 2) (mkItem (Some (1, 1)) "X" [] []);
             SetMark (1, 1) Bold (5, 1) true] in
  let rb := [Insert (2, 1) (mkItem (Some (1, 1)) "Y" [Underline] []);
             Delete (1, 2);
             SetMark (1, 1) Bold (6, 2) false;
             SetMark (1, 1) Italic (6, 2) true] in
  materialize (deliver emptyStore [rb; ra; rb; r0; ra])
  = materialize (deliver emptyStore [r0; ra; rb])
  ∧ materialize (deliver emptyStore [r0; ra; rb])
    = [mkRendered (1, 1) "i" [Italic] [(HeadingLevel, 2)];
       mkRendered (2, 1) "Y" [Underline] []].
Proof.
  intros r0 ra rb. split; [|vm_compute; reflexivity].
  apply (replicas_converge emptyStore [r0; ra; rb]
           [rb; ra; rb; r0; ra] [r0; ra; rb]).
  - refine (bool_decide_unpack _ _). vm_compute. exact I.
  - intros r. rewrite !elem_of_cons, !elem_of_nil. tauto.
  - done.
Defined.

End ReplicaFacts.

(** ** Further facts about the server *)

Module ServerProperties.
Import Server ServerFacts.

(** *** The document name of a connection *)

Abbreviation chars := String.list_ascii_of_string (only parsing).
Abbreviation qmark := ("?"%char) (only parsing).

Lemma beforeQuery_no_query path : qmark ∉ chars (beforeQuery path).
Proof.
  induction path as [|c rest IH]; simpl; [apply not_elem_of_nil|].
  destruct (Ascii.eqb c "?") eqn:E; simpl; [apply not_elem_of_nil|].
  apply not_elem_of_cons. split; [|done].
  intros <-. by rewrite Ascii.eqb_refl in E.
Qed.

Lemma beforeQuery_id name : qmark ∉ chars name → beforeQuery name = name.
Proof.
  induction name as [|c rest IH]; simpl; [done|].
  intros H. apply not_elem_of_cons in H as [Hc Hrest].
  destruct (Ascii.eqb c "?") eqn:E.
  - apply Ascii.eqb_eq in E. congruence.
  - by rewrite IH.
Qed.

Lemma beforeQuery_app name rest :
  qmark ∉ chars name → beforeQuery (name ++ String "?" rest) = name.
Proof.
  induction name as [|c name IH]; simpl; [done|].
  intros H. apply not_elem_of_cons in H as [Hc Hrest].
  destruct (Ascii.eqb c "?") eqn:E.
  - apply Ascii.eqb_eq in E. congruence.
  - by rewrite IH.
Qed.

(** X1: whatever the request URL is (missing, empty, a bare slash, only a
    query), the document name the connection listener works with is never
    empty and never contains a question mark. *)
Theorem docName_nonempty_no_query (reqUrl : option string) :
  docNameOf reqUrl ≠ "" ∧ qmark ∉ chars (docNameOf reqUrl).
Proof.
  unfold docNameOf. case_decide as H.
  - split; [done|]. vm_compute. intros Hin.
    repeat (apply elem_of_cons in Hin as [Hin|Hin]; [discriminate|]).
    by apply elem_of_nil in Hin.
  - split; [done|]. apply beforeQuery_no_query.
Qed.

(** X2: the listener drops the first character of the URL, whatever it is,
    and everything from the first question mark on: for a non-empty name
    without a question mark, both [c name] and [c name ? query] address the
    document [name]. *)
Theorem docName_of_path (c : ascii) (name query : string) :
  name ≠ "" → qmark ∉ chars name →
  docNameOf (Some (String c name)) = name
  ∧ docNameOf (Some (String c (name ++ String "?" query))) = name.
Proof.
  intros Hne Hq. unfold docNameOf. simpl.
  rewrite beforeQuery_id, beforeQuery_app by done.
  by rewrite decide_False.
Qed.

Lemma docName_of_path_witness :
  docNameOf (Some "/notes") = "notes"
  ∧ docNameOf (Some "/notes?token=abc?x") = "notes".
Proof.
  apply (docName_of_path "/" "notes" "token=abc?x").
  - discriminate.
  - vm_compute. intros Hin.
    repeat (apply elem_of_cons in Hin as [Hin|Hin]; [discriminate|]).
    by apply elem_of_nil in Hin.
Defined.

(** *** The URL POST returns *)

Lemma docName_of_doc_path docId :
  docNameOf (Some ("/doc/" ++ docId)) = "doc/" ++ beforeQuery docId.
Proof.
  unfold docNameOf. simpl.
  by destruct (decide (String "d" (String "o" (String "c" (String "/"
                 (beforeQuery docId)))) = "")).
Qed.

Lemma doc_path_not_id docId : docNameOf (Some ("/doc/" ++ docId)) ≠ docId.
Proof.
  rewrite docName_of_doc_path.
  destruct (decide (qmark ∈ chars docId)) as [Hq|Hq].
  - intros Heq. pose proof (docName_nonempty_no_query (Some ("/doc/" ++ docId)))
      as [_ Hno].
    rewrite docName_of_doc_path, Heq in Hno. done.
  - rewrite beforeQuery_id by done. intros Heq.
    apply (f_equal String.length) in Heq. simpl in Heq.
    change ("" +:+ docId) with docId in Heq. lia.
Qed.

(** X3: the URL in the answer of POST ends in [/doc/<id>], and the
    connection listener reads a request for that path as the document name
    [doc/<id>], which is never the identifier POST stored the document under.
    A connection to that path therefore leaves the created document with no
    collaborator and works on a document of its own. *)
Theorem post_url_names_other_document
    (s : State) (docId : string) (t : option string) (protocol host : string)
    (now : Date) (c : string) (now' : Date) (thr : bool) :
  let s1 := (postDocument docId t protocol host now s).1 in
  let path := "/doc/" ++ docId in
  let s2 := (connection (Some path) c now' thr s1).1 in
  reachable s →
  (postDocument docId t protocol host now s).2
  = RCreated docId (Some (default "Untitled Document" t))
             (protocol ++ "://" ++ host ++ path)
  ∧ docNameOf (Some path) ≠ docId
  ∧ collaboratorCount s2 docId = Some 0
  ∧ (∃ k, collaboratorCount s2 (docNameOf (Some path)) = Some (S k)).
Proof.
  intros s1 path s2 Hr. apply wf_reachable in Hr as Hwf.
  assert (wf s1) as Hwf1 by (by apply wf_createDocument).
  split; [done|]. split; [apply doc_path_not_id|].
  assert (metadataOf s1 docId
          = Some (mkMetadata (Some (default "Untitled Document" t)) now ∅)) as Ho
    by apply createDocument_metadata_new.
  clearbody s1. split.
  - subst s2. erewrite collaboratorCount_Some
      by (rewrite (connection_metadata _ _ _ _ _ _ _ Hwf1 Ho),
            decide_False by apply doc_path_not_id; done).
    done.
  - destruct (connection_socket (Some path) c now' thr s1 Hwf1)
      as (_ & _ & m & d & Hm & _ & _).
    pose proof (wf_connection (Some path) c now' thr s1 Hwf1) as Hwf2.
    pose proof (connection_counted (Some path) c now' thr s1 Hwf1) as Hcnt.
    destruct (wf_meta _ Hwf2 _ _ Hm) as [o Ho2].
    assert (metadataOf s2 (docNameOf (Some path)) = Some o) as Hmo
      by (apply metadataOf_Some; eauto).
    assert (c ∈ collaborators o) as Hin.
    { destruct (metadataOf s1 (docNameOf (Some path))) as [o1|] eqn:Ho1.
      - subst s2. rewrite (connection_metadata _ _ _ _ _ _ _ Hwf1 Ho1),
          decide_True in Hmo by done.
        injection Hmo as <-. simpl. set_solver.
      - destruct (connection_outcome s1 (Some path) c now' thr)
          as (y & w & _ & _ & _ & _ & _ & _ & Hnew).
        assert (documentMetadata s1 !! docNameOf (Some path) = None) as Hnone.
        { unfold metadataOf in Ho1.
          destruct (documentMetadata s1 !! docNameOf (Some path)) as [m0|] eqn:Hm0;
            [|done].
          destruct (wf_meta _ Hwf1 _ _ Hm0) as [? Hx]. simpl in Ho1. congruence. }
        destruct Hnew as (_ & _ & Hnew & _); [by apply (wf_same_presence _ _ Hwf1)|].
        subst s2. rewrite (Hnew Hnone) in Hmo. injection Hmo as <-. simpl.
        set_solver. }
    rewrite (collaboratorCount_Some _ _ _ Hmo).
    destruct (size (collaborators o)) eqn:Hsz; [|eauto].
    apply size_empty_inv in Hsz.
    exfalso. apply (not_elem_of_empty (C:=gset string) c). by apply Hsz.
Qed.

Lemma post_url_names_other_document_witness :
  let s1 := (postDocument "7f3a" (Some "Plan") "http" "localhost:1234" 1%Z initial).1 in
  let s2 := (connection (Some "/doc/7f3a") "u1" 2%Z false s1).1 in
  collaboratorCount s2 "7f3a" = Some 0
  ∧ ∃ k, collaboratorCount s2 "doc/7f3a" = Some (S k).
Proof.
  intros s1 s2.
  destruct (post_url_names_other_document initial "7f3a" (Some "Plan") "http"
              "localhost:1234" 1%Z "u1" 2%Z false) as (_ & _ & H0 & H1).
  - by exists [].
  - split; [exact H0|exact H1].
Defined.

(** *** The listing, single lookups and the health check *)

Lemma listed_ids_sublist (s : State) (l : list (string * loc)) :
  info_id <$> omap (λ e : string * loc, infoOf e.1 <$> metas s !! e.2) l
  `sublist_of` l.*1.
Proof.
  induction l as [|[docId m] l IH]; [done|]. csimpl.
  destruct (metas s !! m); csimpl.
  - by apply sublist_skip.
  - by apply sublist_cons.
Qed.

Lemma listed_elem s info :
  info ∈ listed s
  ↔ ∃ docId m o, documentMetadata s !! docId = Some m ∧ metas s !! m = Some o
                 ∧ info = infoOf docId o.
Proof.
  unfold listed, getDocuments. simpl. rewrite list_elem_of_omap. split.
  - intros ([docId m] & Hin & Hf). apply elem_of_map_to_list in Hin. simpl in Hf.
    destruct (metas s !! m) as [o|] eqn:Ho; [|done].
    injection Hf as <-. eauto 6.
  - intros (docId & m & o & Hm & Ho & ->). exists (docId, m).
    split; [by apply elem_of_map_to_list|]. simpl. by rewrite Ho.
Qed.

Lemma listed_length s : wf s → List.length (listed s) = size (documents s).
Proof.
  intros Hwf. unfold listed, getDocuments. simpl.
  rewrite <- (size_dom (D:=gset string) (documents s)), (wf_dom _ Hwf), size_dom.
  rewrite <- length_map_to_list.
  assert (Forall (λ e : string * loc, is_Some (metas s !! e.2))
                 (map_to_list (documentMetadata s))) as Hall.
  { apply Forall_forall. intros [docId m] Hin. apply elem_of_map_to_list in Hin.
    by eapply wf_meta. }
  induction Hall as [|[docId m] l [o Ho] Hl IH]; [done|]. csimpl in *.
  rewrite Ho. csimpl. by rewrite IH.
Qed.

(** X4: on a reachable server the listing of GET /api/documents has exactly
    one entry for each stored document, and an entry is in the listing if and
    only if GET /api/documents/:docId answers with that very entry for its
    identifier. *)
Theorem listing_matches_lookup (s : State) :
  reachable s →
  NoDup (info_id <$> listed s)
  ∧ (∀ docId, is_Some (documents s !! docId) ↔ docId ∈ info_id <$> listed s)
  ∧ ∀ info, info ∈ listed s ↔ (getDocument (info_id info) s).2 = RDocument info.
Proof.
  intros Hr. apply wf_reachable in Hr as Hwf. split_and!.
  - unfold listed, getDocuments. simpl.
    eapply sublist_NoDup; [|apply listed_ids_sublist]. apply NoDup_fst_map_to_list.
  - intros docId. rewrite <- elem_of_dom, (wf_dom _ Hwf), elem_of_dom.
    rewrite list_elem_of_fmap. split.
    + intros [m Hm]. destruct (wf_meta _ Hwf _ _ Hm) as [o Ho].
      exists (infoOf docId o). split; [done|]. apply listed_elem. eauto 6.
    + intros (info & -> & Hin). apply listed_elem in Hin as (d & m & o & Hm & _ & ->).
      simpl. eauto.
  - intros info. rewrite listed_elem. unfold getDocument. split.
    + intros (docId & m & o & Hm & Ho & ->). simpl.
      assert (metadataOf s docId = Some o) as -> by (apply metadataOf_Some; eauto).
      done.
    + destruct (metadataOf s (info_id info)) as [o|] eqn:Ho; [|done]. simpl.
      intros [= <-]. apply metadataOf_Some in Ho as (m & Hm & Ho). simpl. eauto 6.
Qed.

Lemma listing_matches_lookup_witness :
  let s := run initial [PostDocument "a" (Some "Plan") "http" "host" 1%Z;
                        PostDocument "b" None "http" "host" 2%Z;
                        WsConnection (Some "/a") "u1" 3%Z false] in
  mkDocInfo "a" (Some "Plan") 1%Z 1 ∈ listed s
  ∧ NoDup (info_id <$> listed s).
Proof.
  intros s. destruct (listing_matches_lookup s) as (Hnd & _ & Hiff); [by eexists|].
  split; [|exact Hnd]. apply Hiff. vm_compute. reflexivity.
Defined.

(** X5: on a reachable server the [documents] number of the health check is
    the number of entries GET /api/documents lists. *)
Theorem health_counts_listing (s : State) (now : Date) (uptime : Z) :
  reachable s →
  (getHealth now uptime s).2 = RHealth now (List.length (listed s)) uptime.
Proof.
  intros Hr. apply wf_reachable in Hr. unfold getHealth. simpl.
  by rewrite listed_length.
Qed.

Lemma health_counts_listing_witness :
  let s := run initial [PostDocument "a" (Some "Plan") "http" "host" 1%Z;
                        WsConnection (Some "/room") "u1" 3%Z false;
                        DeleteDocument "a"] in
  (getHealth 9%Z 100%Z s).2 = RHealth 9%Z (List.length (listed s)) 100%Z
  ∧ List.length (listed s) = 1.
Proof.
  intros s. split; [|vm_compute; reflexivity].
  apply (health_counts_listing s 9%Z 100%Z). by eexists.
Defined.

(** *** Creating and deleting *)

Lemma omap_ext_in {A B} (f g : A → option B) (l : list A) :
  (∀ x, x ∈ l → f x = g x) → omap f l = omap g l.
Proof.
  induction l as [|x l IH]; intros H; [done|]. csimpl.
  rewrite (H x) by (by left). rewrite IH; [done|].
  intros y Hy. apply H. by right.
Qed.

(** X6: on a reachable server, creating a document under an unused
    identifier and deleting it again is invisible to every GET: DELETE
    succeeds, both catalogue maps are as before, the listing is the same and
    every single lookup answers as before. *)
Theorem create_then_delete_invisible
    (s : State) (docId : string) (t : option string) (protocol host : string)
    (now : Date) :
  let s1 := next s (PostDocument docId t protocol host now) in
  let s2 := next s1 (DeleteDocument docId) in
  reachable s →
  documents s !! docId = None →
  (step s1 (DeleteDocument docId)).2 = Http RSuccess
  ∧ documents s2 = documents s
  ∧ documentMetadata s2 = documentMetadata s
  ∧ listed s2 = listed s
  ∧ ∀ docId', (getDocument docId' s2).2 = (getDocument docId' s).2.
Proof.
  intros s1 s2 Hr Hdoc. apply wf_reachable in Hr as Hwf.
  apply (wf_same_presence _ _ Hwf) in Hdoc as Hmeta.
  assert (documents s1 !! docId = Some (nextLoc s)) as Hd1
    by (unfold s1, next; simpl; apply lookup_insert_eq).
  assert (documents s2 = documents s) as Hdocs.
  { unfold s2, next, step, deleteDocument. rewrite Hd1. simpl.
    by apply delete_insert_id. }
  assert (documentMetadata s2 = documentMetadata s) as Hmetas.
  { unfold s2, next, step, deleteDocument. rewrite Hd1. simpl.
    by apply delete_insert_id. }
  assert (∀ m, is_Some (metas s !! m) → metas s2 !! m = metas s !! m) as Hheap.
  { intros m Hm. unfold s2, next, step, deleteDocument. rewrite Hd1. simpl.
    rewrite lookup_insert_ne; [done|].
    apply (wf_metas_lt _ Hwf) in Hm. lia. }
  split_and!; try done.
  - cbn [step]. unfold deleteDocument. rewrite Hd1. reflexivity.
  - unfold listed, getDocuments. simpl. rewrite Hmetas.
    apply omap_ext_in. intros [docId' m] Hin. simpl.
    apply elem_of_map_to_list in Hin. rewrite Hheap; [done|]. by eapply wf_meta.
  - intros docId'. unfold getDocument, metadataOf. rewrite Hmetas.
    destruct (documentMetadata s !! docId') as [m|] eqn:Hm; [|done]. simpl.
    rewrite Hheap by (by eapply wf_meta). by destruct (metas s !! m).
Qed.

Lemma create_then_delete_invisible_witness :
  let s := run initial [PostDocument "a" (Some "Plan") "http" "host" 1%Z;
                        WsConnection (Some "/a") "u1" 3%Z false] in
  let s2 := next (next s (PostDocument "b" None "http" "host" 4%Z))
                 (DeleteDocument "b") in
  listed s2 = listed s ∧ documents s2 = documents s.
Proof.
  intros s s2.
  destruct (create_then_delete_invisible s "b" None "http" "host" 4%Z)
    as (_ & Hd & _ & Hl & _).
  - by eexists.
  - vm_compute. reflexivity.
  - split; [exact Hl|exact Hd].
Defined.

(** *** What changes the catalogue *)

(** X7: one step changes the catalogue maps only if it is a POST, a DELETE of
    a stored document, or a WebSocket connection to a name with no document;
    every other step (the GETs, PUT title, a connection to an existing
    document, "close" and "update" events) leaves both maps exactly as they
    were. *)
Theorem catalogue_changes_only_by (s : State) (e : Event) :
  (documents (next s e) = documents s
   ∧ documentMetadata (next s e) = documentMetadata s)
  ∨ (∃ uuid t protocol host now, e = PostDocument uuid t protocol host now)
  ∨ (∃ docId, e = DeleteDocument docId ∧ is_Some (documents s !! docId))
  ∨ (∃ reqUrl uuid now thr,
       e = WsConnection reqUrl uuid now thr
       ∧ documents s !! docNameOf reqUrl = None).
Proof.
  destruct e.
  - by left.
  - left. unfold next. simpl. unfold getDocument. by destruct (metadataOf s docId).
  - right. left. eauto 10.
  - left. unfold next. simpl. unfold putTitle.
    by destruct (documentMetadata s !! docId).
  - destruct (documents s !! docId) as [d|] eqn:Hd.
    + right. right. left. eauto.
    + left. unfold next. simpl. unfold deleteDocument. by rewrite Hd.
  - by left.
  - left. by rewrite next_message.
  - destruct (documents s !! docNameOf reqUrl) as [d|] eqn:Hd.
    + left. unfold next. simpl. unfold connection. simpl.
      set (s0 := log _ _).
      assert (ensureDocument (docNameOf reqUrl) now s0 = s0) as ->
        by (unfold ensureDocument; simpl; by rewrite Hd).
      destruct (setupSync_frame (nextLoc s) (docNameOf reqUrl) setupThrows
                  (joinCollaborators (nextLoc s) (docNameOf reqUrl) uuid s0))
        as (-> & -> & _).
      by destruct (joinCollaborators_frame (nextLoc s) (docNameOf reqUrl) uuid s0)
        as (-> & -> & _).
    + right. right. right. eauto 10.
  - left. unfold next. simpl.
    by destruct (socketClosed_frame ws s) as (-> & -> & _).
  - left. unfold next. simpl. unfold docUpdated.
    destruct (ydocs s !! ydoc) as [y|]; [|done].
    by destruct (updateListeners_frame now (updateObservers y) s) as (-> & -> & _).
Qed.

(** *** What changes a title and a collaborator set *)

(** X8: on a reachable server with fresh [uuidv4()] values, the title of a
    document that stays stored changes in one step only by a PUT of a title
    for that document, and then it is the title put. *)
Theorem title_changes_only_by_put
    (s : State) (e : Event) (docId : string) (t t' : option string) :
  reachable s → uuidFresh s e →
  titleOf s docId = Some t →
  titleOf (next s e) docId = Some t' →
  t' ≠ t →
  ∃ now, e = PutTitle docId t' now.
Proof.
  intros Hr Hfresh Ht Ht' Hne. apply wf_reachable in Hr as Hwf.
  unfold titleOf in *.
  destruct (metadataOf s docId) as [o|] eqn:Ho; [|done].
  simpl in Ht. injection Ht as <-.
  pose proof (next_metadata s e docId o Hwf Ho) as H.
  destruct e; simpl in H; try (rewrite H in Ht'; simpl in Ht'; congruence).
  - destruct Hfresh as [_ Hfresh]. case_decide as Hd.
    + subst. apply metadataOf_Some in Ho as (m & Hm & _). congruence.
    + rewrite H in Ht'. simpl in Ht'. congruence.
  - case_decide as Hd.
    + subst. rewrite H in Ht'. simpl in Ht'. injection Ht' as <-. eauto.
    + rewrite H in Ht'. simpl in Ht'. congruence.
  - case_decide; rewrite H in Ht'; simpl in Ht'; congruence.
  - rewrite H in Ht'. case_decide; simpl in Ht'; congruence.
  - destruct H as (o' & H & Htitle & _). rewrite H in Ht'. simpl in Ht'. congruence.
  - rewrite H in Ht'. destruct (ydocs s !! ydoc); [case_decide|];
      simpl in Ht'; congruence.
Qed.

Lemma title_changes_only_by_put_witness :
  let s := run initial [PostDocument "a" (Some "Plan") "http" "host" 1%Z] in
  ∃ now, PutTitle "a" None 5%Z = PutTitle "a" None now.
Proof.
  intros s.
  apply (title_changes_only_by_put s (PutTitle "a" None 5%Z) "a" (Some "Plan") None).
  - by eexists.
  - exact I.
  - vm_compute. reflexivity.
  - vm_compute. reflexivity.
  - discriminate.
Defined.

(** X9: on a reachable server with fresh [uuidv4()] values, the collaborator
    set of a document that stays stored changes in one step only by a
    WebSocket connection to that document, which adds the new collaborator
    id and nothing else, or by a "close" event, which only takes ids away. No
    REST request and no update event touches it. *)
Theorem collaborators_change_only_by_sockets
    (s : State) (e : Event) (docId : string) (o o' : Metadata) :
  reachable s → uuidFresh s e →
  metadataOf s docId = Some o →
  metadataOf (next s e) docId = Some o' →
  collaborators o' ≠ collaborators o →
  (∃ reqUrl c now thr,
     e = WsConnection reqUrl c now thr ∧ docNameOf reqUrl = docId
     ∧ collaborators o' = {[c]} ∪ collaborators o)
  ∨ (∃ ws, e = WsClose ws ∧ collaborators o' ⊆ collaborators o).
Proof.
  intros Hr Hfresh Ho Ho' Hne. apply wf_reachable in Hr as Hwf.
  pose proof (next_metadata s e docId o Hwf Ho) as H.
  destruct e; simpl in H; try (rewrite H in Ho'; congruence).
  - destruct Hfresh as [_ Hfresh]. case_decide as Hd.
    + subst. apply metadataOf_Some in Ho as (m & Hm & _). congruence.
    + rewrite H in Ho'. congruence.
  - rewrite H in Ho'. case_decide; injection Ho' as <-; done.
  - case_decide; rewrite H in Ho'; congruence.
  - rewrite H in Ho'. case_decide as Hd; injection Ho' as <-; [|done].
    left. eauto 10.
  - destruct H as (o2 & H & _ & _ & Hsub). rewrite H in Ho'. injection Ho' as <-.
    right. eauto.
  - rewrite H in Ho'. destruct (ydocs s !! ydoc); [case_decide|];
      injection Ho' as <-; done.
Qed.

Lemma collaborators_change_only_by_sockets_witness :
  let s := run initial [PostDocument "a" (Some "Plan") "http" "host" 1%Z] in
  let e := WsConnection (Some "/a?x") "u1" 2%Z true in
  (∃ reqUrl c now thr,
     e = WsConnection reqUrl c now thr ∧ docNameOf reqUrl = "a"
     ∧ ({["u1"]} : gset string) = {[c]} ∪ ∅)
  ∨ (∃ ws, e = WsClose ws ∧ ({["u1"]} : gset string) ⊆ ∅).
Proof.
  intros s e.
  assert (reachable s) as Hr by (by eexists).
  assert (uuidFresh s e) as Hf by (refine (bool_decide_unpack _ _); vm_compute; exact I).
  assert (metadataOf s "a" = Some (mkMetadata (Some "Plan") 1%Z ∅)) as Ho
    by (vm_compute; reflexivity).
  assert (metadataOf (next s e) "a" = Some (mkMetadata (Some "Plan") 1%Z {["u1"]}))
    as Ho' by (vm_compute; reflexivity).
  assert (collaborators (mkMetadata (Some "Plan") 1%Z {["u1"]})
          ≠ collaborators (mkMetadata (Some "Plan") 1%Z ∅)) as Hne.
  { simpl. intros Heq. apply (not_elem_of_empty (C:=gset string) "u1").
    rewrite <- Heq. by apply elem_of_singleton. }
  exact (collaborators_change_only_by_sockets s e "a" _ _ Hr Hf Ho Ho' Hne).
Defined.

(** *** A connection that outlives its document *)

Lemma ensureDocument_new_loc docName now s :
  wf s → documents s !! docName = None →
  documentMetadata (ensureDocument docName now s) !! docName = Some (S (nextLoc s)).
Proof.
  intros Hwf Hdoc. apply (wf_same_presence _ _ Hwf) in Hdoc as Hmeta.
  unfold ensureDocument. rewrite Hdoc. simpl. rewrite Hmeta. simpl.
  apply lookup_insert_eq.
Qed.

(** The record a connection creates for a missing document is a new object. *)
Lemma connection_new_record reqUrl c now thr s :
  wf s → documents s !! docNameOf reqUrl = None →
  ∃ m, metas s !! m = None
       ∧ documentMetadata (connection reqUrl c now thr s).1 !! docNameOf reqUrl = Some m
       ∧ metas (connection reqUrl c now thr s).1 !! m
         = Some (mkMetadata (Some "Untitled Document") now {[c]}).
Proof.
  intros Hwf Hdoc. apply (wf_same_presence _ _ Hwf) in Hdoc as Hmeta.
  destruct (connection_outcome s reqUrl c now thr)
    as (y & w & _ & _ & _ & _ & _ & _ & Hnew).
  destruct (Hnew Hdoc) as (_ & _ & Hrec & _). specialize (Hrec Hmeta).
  apply metadataOf_Some in Hrec as (m & Hm & Ho).
  exists m. split; [|done].
  assert (m = S (S (nextLoc s))) as ->.
  { unfold connection in Hm. simpl in Hm.
    set (s0 := log _ _) in Hm.
    assert (wf s0) as Hwf0 by (apply wf_log, (wf_newSocket _ Hwf)).
    destruct (setupSync_frame (nextLoc s) (docNameOf reqUrl) thr
                (joinCollaborators (nextLoc s) (docNameOf reqUrl) c
                   (ensureDocument (docNameOf reqUrl) now s0))) as (_ & HS & _).
    destruct (joinCollaborators_frame (nextLoc s) (docNameOf reqUrl) c
                (ensureDocument (docNameOf reqUrl) now s0)) as (_ & HJ & _).
    rewrite HS, HJ, (ensureDocument_new_loc _ _ _ Hwf0) in Hm by done.
    by injection Hm as <-. }
  destruct (metas s !! S (S (nextLoc s))) as [o|] eqn:Hold; [|done].
  assert (S (S (nextLoc s)) < nextLoc s) by (eapply wf_metas_lt; eauto). lia.
Qed.

(** X10: the close listener keeps the metadata object it was registered
    with. If the document of an open connection is deleted and a new
    connection creates a document under the same name, the reported count of
    the new document is 1, and the "close" event of the old connection does
    not lower it. *)
Theorem stale_close_leaves_new_count
    (s : State) (ws m : loc) (w : Socket) (docName c : string)
    (reqUrl : option string) (c' : string) (now : Date) (thr : bool) :
  let s1 := next s (DeleteDocument docName) in
  let s2 := (connection reqUrl c' now thr s1).1 in
  reachable s →
  documentMetadata s !! docName = Some m →
  sockets s !! ws = Some w →
  closeEmitted w = false →
  closeHandlers w = [(m, c, docName)] →
  docNameOf reqUrl = docName →
  sockets s2 !! ws = Some w
  ∧ collaboratorCount s2 docName = Some 1
  ∧ collaboratorCount (socketClosed ws s2) docName = Some 1.
Proof.
  intros s1 s2 Hr Hm Hw Hem Hh Hname. apply wf_reachable in Hr as Hwf.
  assert (wf s1) as Hwf1 by (by apply wf_deleteDocument).
  assert (is_Some (documents s !! docName)) as [d Hd].
  { apply elem_of_dom. rewrite (wf_dom _ Hwf). apply elem_of_dom. eauto. }
  assert (documents s1 !! docName = None ∧ sockets s1 = sockets s
          ∧ metas s1 = metas s) as (Hd1 & Hs1 & Hm1).
  { unfold s1, next, step, deleteDocument. rewrite Hd. simpl.
    by rewrite lookup_delete_eq. }
  clearbody s1. rewrite <- Hname in Hd1.
  destruct (connection_new_record reqUrl c' now thr s1 Hwf1 Hd1)
    as (m' & Hfresh & Hm' & Ho').
  rewrite Hname in Hm'. fold s2 in Hm', Ho'.
  assert (m' ≠ m) as Hne.
  { intros ->. rewrite Hm1 in Hfresh.
    destruct (wf_meta _ Hwf _ _ Hm) as [? ?]. congruence. }
  assert (sockets s2 !! ws = Some w) as Hw2.
  { destruct (connection_socket reqUrl c' now thr s1 Hwf1) as (_ & Hold & _).
    unfold s2. rewrite Hold, Hs1; [done|].
    assert (ws < nextLoc s1); [|lia].
    apply (wf_sockets_lt _ Hwf1). rewrite Hs1. eauto. }
  split; [done|]. split.
  - erewrite collaboratorCount_Some by (apply metadataOf_Some; eauto).
    cbn [collaborators]. by rewrite size_singleton.
  - erewrite collaboratorCount_Some.
    2:{ apply metadataOf_Some. exists m'.
        unfold socketClosed. rewrite Hw2, Hem, Hh. simpl.
        split; [done|]. rewrite lookup_alter_ne by done. done. }
    cbn [collaborators]. by rewrite size_singleton.
Qed.

Lemma stale_close_leaves_new_count_witness :
  let s := run initial [WsConnection (Some "/room") "u1" 1%Z false] in
  let s1 := next s (DeleteDocument "room") in
  let s2 := (connection (Some "/room?again") "u2" 2%Z false s1).1 in
  collaboratorCount s2 "room" = Some 1
  ∧ collaboratorCount (socketClosed 0 s2) "room" = Some 1.
Proof.
  intros s s1 s2.
  destruct (stale_close_leaves_new_count s 0 2
              (mkSocket [(2, "u1", "room")] (Some (SetupWithDoc "room" 1)) false false)
              "room" "u1" (Some "/room?again") "u2" 2%Z false)
    as (_ & H1 & H2).
  - by eexists.
  - vm_compute. reflexivity.
  - vm_compute. reflexivity.
  - reflexivity.
  - reflexivity.
  - vm_compute. reflexivity.
  - split; [exact H1|exact H2].
Defined.

(** *** Update listeners are never unregistered *)

Lemma ensureDocument_ydocs docName now s d :
  wf s → is_Some (ydocs s !! d) →
  ydocs (ensureDocument docName now s) !! d = ydocs s !! d.
Proof.
  intros Hwf Hd. unfold ensureDocument.
  destruct (documents s !! docName); [done|]. simpl.
  assert (nextLoc s ≠ d) by (apply (wf_ydocs_lt _ Hwf) in Hd; lia).
  destruct (documentMetadata s !! docName); simpl; by rewrite lookup_insert_ne.
Qed.

Lemma next_observers s e d y :
  wf s → ydocs s !! d = Some y → (∀ docId, e ≠ DeleteDocument docId) →
  ∃ y', ydocs (next s e) !! d = Some y'
        ∧ updateObservers y `prefix_of` updateObservers y'
        ∧ destroyed y' = destroyed y.
Proof.
  intros Hwf Hy Hnd.
  assert (nextLoc s ≠ d) as Hfresh
    by (assert (d < nextLoc s) by (eapply wf_ydocs_lt; eauto); lia).
  destruct e; unfold next; simpl; rewrite ?socketMessage_state; try (by exists y).
  - unfold getDocument. destruct (metadataOf s docId); by exists y.
  - exists y. by rewrite lookup_insert_ne.
  - unfold putTitle. destruct (documentMetadata s !! docId); by exists y.
  - by destruct (Hnd docId).
  - unfold connection. simpl. set (s0 := log _ _).
    assert (wf s0) as Hwf0 by (apply wf_log, (wf_newSocket _ Hwf)).
    assert (ydocs (joinCollaborators (nextLoc s) (docNameOf reqUrl) uuid
                     (ensureDocument (docNameOf reqUrl) now s0)) !! d = Some y) as Hy2.
    { destruct (joinCollaborators_frame (nextLoc s) (docNameOf reqUrl) uuid
                  (ensureDocument (docNameOf reqUrl) now s0)) as (_ & _ & -> & _).
      rewrite ensureDocument_ydocs; [done..|]. simpl. eauto. }
    unfold setupSync.
    destruct (documents _ !! docNameOf reqUrl) as [d0|], setupThrows; simpl;
      try (by exists y).
    destruct (decide (d0 = d)) as [->|Hne].
    + rewrite lookup_alter_eq, Hy2. simpl. eexists. split; [done|]. simpl.
      split; [by apply prefix_app_r|done].
    + rewrite lookup_alter_ne by done. by exists y.
  - destruct (socketClosed_frame ws s) as (_ & _ & -> & _). by exists y.
  - unfold docUpdated. destruct (ydocs s !! ydoc) as [y0|]; [|by exists y].
    destruct (updateListeners_frame now (updateObservers y0) s) as (_ & _ & -> & _).
    by exists y.
Qed.

(** X11: on a reachable server, however many connections open and close, no
    step short of a DELETE removes an update listener from a Y.Doc: after
    any run without DELETE the listeners registered on it before are still
    there, in the same order, before any new ones. In particular a
    connection's listener outlives the connection. *)
Theorem update_listeners_only_grow
    (s : State) (evs : list Event) (d : loc) (y : YDoc) :
  reachable s →
  ydocs s !! d = Some y →
  Forall (λ e, ∀ docId, e ≠ DeleteDocument docId) evs →
  ∃ y', ydocs (run s evs) !! d = Some y'
        ∧ updateObservers y `prefix_of` updateObservers y'
        ∧ destroyed y' = destroyed y.
Proof.
  intros Hr. apply wf_reachable in Hr as Hwf. clear Hr.
  revert s y Hwf. induction evs as [|e evs IH]; intros s y Hwf Hy Hall; simpl.
  - by exists y.
  - apply Forall_cons in Hall as [He Hall].
    destruct (next_observers s e d y Hwf Hy He) as (y1 & Hy1 & Hpre1 & Hd1).
    destruct (IH (next s e) y1 (wf_next _ _ Hwf) Hy1 Hall) as (y2 & Hy2 & Hpre2 & Hd2).
    exists y2. split; [done|]. split; [by etrans|congruence].
Qed.

Lemma update_listeners_only_grow_witness :
  let s := run initial [PostDocument "a" None "http" "host" 1%Z] in
  let evs := [WsConnection (Some "/a") "u1" 2%Z false; WsClose 2;
              WsConnection (Some "/a") "u2" 3%Z false; WsClose 3] in
  ydocs (run s evs) !! 0 = Some (mkYDoc false ["a"; "a"])
  ∧ ∃ y', ydocs (run s evs) !! 0 = Some y'
          ∧ updateObservers (mkYDoc false []) `prefix_of` updateObservers y'
          ∧ destroyed y' = false.
Proof.
  intros s evs. split; [vm_compute; reflexivity|].
  apply (update_listeners_only_grow s evs 0 (mkYDoc false [])).
  - by eexists.
  - vm_compute. reflexivity.
  - repeat constructor; discriminate.
Defined.

(** *** Collaborator ids belong to open sockets *)

(** Collaborator sets that did not grow and sockets that stayed open with at
    least their listeners keep every id accounted for. *)
Lemma accounted_weaken s s' :
  accounted s →
  (∀ m o' c, metas s' !! m = Some o' → c ∈ collaborators o' →
             ∃ o, metas s !! m = Some o ∧ c ∈ collaborators o) →
  (∀ ws w, sockets s !! ws = Some w → closeEmitted w = false →
           ∃ w', sockets s' !! ws = Some w' ∧ closeEmitted w' = false
                 ∧ closeHandlers w ⊆ closeHandlers w') →
  accounted s'.
Proof.
  intros Hacc Hm Hs m o' c Ho' Hc.
  destruct (Hm _ _ _ Ho' Hc) as (o & Ho & Hin).
  destruct (Hacc _ _ _ Ho Hin) as (ws & w & n & Hw & Hem & Hh).
  destruct (Hs _ _ Hw Hem) as (w' & Hw' & Hem' & Hsub).
  exists ws, w', n. split_and!; [done..|]. by apply Hsub.
Qed.

Lemma accounted_same s s' :
  metas s' = metas s → sockets s' = sockets s → accounted s → accounted s'.
Proof.
  intros Hm Hs Hacc. apply (accounted_weaken s); [done|..].
  - intros m o' c. rewrite Hm. eauto.
  - intros ws w. rewrite Hs. eauto.
Qed.

Lemma accounted_alter_metas f m s :
  (∀ o, collaborators (f o) ⊆ collaborators o) →
  accounted s → accounted (set_metas (alter f m) s).
Proof.
  intros Hf Hacc. apply (accounted_weaken s); [done|..]; simpl.
  - intros m' o' c Ho' Hc. destruct (decide (m' = m)) as [->|Hne].
    + rewrite lookup_alter_eq in Ho'.
      destruct (metas s !! m) as [o|]; [|done]. simpl in Ho'. injection Ho' as <-.
      exists o. split; [done|]. by apply Hf.
    + rewrite lookup_alter_ne in Ho' by done. eauto.
  - eauto.
Qed.

Lemma accounted_alter_sockets g ws s :
  (∀ w, closeEmitted (g w) = closeEmitted w ∧ closeHandlers w ⊆ closeHandlers (g w)) →
  accounted s → accounted (set_sockets (alter g ws) s).
Proof.
  intros Hg Hacc. apply (accounted_weaken s); [done|..]; simpl; [eauto|].
  intros ws' w Hw Hem. destruct (decide (ws' = ws)) as [->|Hne].
  - rewrite lookup_alter_eq, Hw. simpl. destruct (Hg w) as [He Hh].
    exists (g w). split_and!; [done|congruence|done].
  - rewrite lookup_alter_ne by done. eauto.
Qed.

Lemma accounted_createDocument docId t now s :
  wf s → accounted s → accounted (createDocument docId t now s).
Proof.
  intros Hwf Hacc. apply (accounted_weaken s); [done|..]; simpl; [|eauto].
  intros m o' c Ho' Hc. apply lookup_insert_Some in Ho' as [[_ <-]|[_ Ho']].
  - simpl in Hc. by apply not_elem_of_empty in Hc.
  - eauto.
Qed.

Lemma accounted_ensureDocument docName now s :
  wf s → accounted s → accounted (ensureDocument docName now s).
Proof.
  intros Hwf Hacc. unfold ensureDocument.
  destruct (documents s !! docName) eqn:Hdoc; [done|]. simpl.
  apply (wf_same_presence _ _ Hwf) in Hdoc as Hmeta. rewrite Hmeta.
  by apply (accounted_createDocument docName (Some "Untitled Document") now).
Qed.

Lemma accounted_newSocket s : wf s → accounted s → accounted (newSocket s).2.
Proof.
  intros Hwf Hacc. apply (accounted_weaken s); [done|..]; simpl; [eauto|].
  intros ws w Hw Hem. exists w. split_and!; [|done..].
  rewrite lookup_insert_ne; [done|].
  assert (ws < nextLoc s) by (eapply wf_sockets_lt; eauto). lia.
Qed.

Lemma accounted_joinCollaborators ws docName c s w0 :
  sockets s !! ws = Some w0 → closeEmitted w0 = false →
  accounted s → accounted (joinCollaborators ws docName c s).
Proof.
  intros Hw0 Hem0 Hacc. unfold joinCollaborators.
  destruct (documentMetadata s !! docName) as [m0|]; [|done].
  intros m o' c' Ho' Hc'. simpl in *.
  assert (∀ ws1 w1 h, sockets s !! ws1 = Some w1 → closeEmitted w1 = false →
            h ∈ closeHandlers w1 →
            ∃ w', alter (onClose (m0, c, docName)) ws (sockets s) !! ws1 = Some w'
                  ∧ closeEmitted w' = false ∧ h ∈ closeHandlers w') as Hkeep.
  { intros ws1 w1 h Hw1 Hem1 Hh. destruct (decide (ws1 = ws)) as [->|Hne].
    - rewrite lookup_alter_eq, Hw1. simpl. eexists. split; [done|]. simpl.
      split; [done|]. apply elem_of_app. by left.
    - rewrite lookup_alter_ne by done. eauto. }
  destruct (decide (m = m0)) as [->|Hne].
  - rewrite lookup_alter_eq in Ho'.
    destruct (metas s !! m0) as [o|] eqn:Ho; [|done]. simpl in Ho'.
    injection Ho' as <-. simpl in Hc'.
    apply elem_of_union in Hc' as [Hc'|Hc'].
    + apply elem_of_singleton in Hc' as ->.
      exists ws, (onClose (m0, c, docName) w0), docName.
      rewrite lookup_alter_eq, Hw0. simpl. split_and!; [done..|].
      apply elem_of_app. right. by left.
    + destruct (Hacc _ _ _ Ho Hc') as (ws1 & w1 & n & Hw1 & Hem1 & Hh).
      destruct (Hkeep _ _ _ Hw1 Hem1 Hh) as (w' & ? & ? & ?). eauto 10.
  - rewrite lookup_alter_ne in Ho' by done.
    destruct (Hacc _ _ _ Ho' Hc') as (ws1 & w1 & n & Hw1 & Hem1 & Hh).
    destruct (Hkeep _ _ _ Hw1 Hem1 Hh) as (w' & ? & ? & ?). eauto 10.
Qed.

Lemma accounted_setupSync ws docName thr s :
  accounted s → accounted (setupSync ws docName thr s).
Proof.
  intros Hacc. unfold setupSync, setupFailed.
  destruct (documents s !! docName), thr;
    repeat first
      [ apply accounted_alter_sockets; [by intros []|]
      | apply (accounted_same _ _ eq_refl eq_refl) ];
    done.
Qed.

Lemma closeListeners_removed hs s m o' :
  metas (foldl closeListener s hs) !! m = Some o' →
  ∃ o, metas s !! m = Some o
       ∧ collaborators o' ⊆ collaborators o
       ∧ ∀ c n, (m, c, n) ∈ hs → c ∉ collaborators o'.
Proof.
  revert s. induction hs as [|[[m1 c1] n1] hs IH]; intros s Ho'; cbn [foldl] in Ho'.
  - exists o'. split_and!; [done..|]. intros c n Hin. by apply elem_of_nil in Hin.
  - destruct (IH _ Ho') as (o1 & Ho1 & Hsub & Hrem). simpl in Ho1.
    destruct (decide (m1 = m)) as [->|Hne].
    + rewrite lookup_alter_eq in Ho1.
      destruct (metas s !! m) as [o|]; [|done]. simpl in Ho1. injection Ho1 as <-.
      exists o. split_and!; [done|..].
      * etrans; [exact Hsub|]. by apply subseteq_difference_l.
      * intros c n Hin. apply elem_of_cons in Hin as [[= -> ->]|Hin]; [|by eapply Hrem].
        intros Hc. apply Hsub in Hc. simpl in Hc.
        apply elem_of_difference in Hc as [_ Hc]. apply Hc. by apply elem_of_singleton.
    + rewrite lookup_alter_ne in Ho1 by done.
      exists o1. split_and!; [done..|].
      intros c n Hin. apply elem_of_cons in Hin as [[= ? ? ?]|Hin]; [done|by eapply Hrem].
Qed.

Lemma accounted_socketClosed x s : accounted s → accounted (socketClosed x s).
Proof.
  intros Hacc. unfold socketClosed.
  destruct (sockets s !! x) as [w|] eqn:Hx; [|done].
  destruct (closeEmitted w) eqn:Hem; [done|].
  set (s0 := set_sockets (alter emitClose x) s).
  destruct (closeListeners_frame (closeHandlers w) s0) as (_ & _ & _ & Hs & _).
  intros m o' c Ho' Hc.
  destruct (closeListeners_removed _ _ _ _ Ho') as (o & Ho & Hsub & Hrem).
  destruct (Hacc m o c Ho (Hsub _ Hc)) as (ws1 & w1 & n & Hw1 & Hem1 & Hh).
  destruct (decide (ws1 = x)) as [->|Hne].
  - assert (w1 = w) as -> by congruence. by destruct (Hrem _ _ Hh).
  - exists ws1, w1, n. rewrite Hs. subst s0. simpl.
    by rewrite lookup_alter_ne.
Qed.

Lemma accounted_docUpdated ydoc now s : accounted s → accounted (docUpdated ydoc now s).
Proof.
  intros Hacc. unfold docUpdated. destruct (ydocs s !! ydoc) as [y|]; [|done].
  destruct (updateListeners_frame now (updateObservers y) s) as (_ & _ & _ & Hs & _).
  apply (accounted_weaken s); [done|..].
  - intros m o' c. rewrite updateListeners_metas.
    case_decide; [|eauto]. destruct (metas s !! m) as [o|]; [|done].
    simpl. intros [= <-]. eauto.
  - intros ws w. rewrite Hs. eauto.
Qed.

Lemma accounted_connection reqUrl c now thr s :
  wf s → accounted s → accounted (connection reqUrl c now thr s).1.
Proof.
  intros Hwf Hacc. unfold connection. simpl.
  apply accounted_setupSync.
  eapply (accounted_joinCollaborators _ _ _ _ (mkSocket [] None false false)).
  - rewrite ensureDocument_frame. simpl. by rewrite lookup_insert_eq.
  - done.
  - apply accounted_ensureDocument.
    + apply wf_log, (wf_newSocket _ Hwf).
    + apply (accounted_same (newSocket s).2); [done..|].
      by apply accounted_newSocket.
Qed.

Lemma accounted_next s e : wf s → accounted s → accounted (next s e).
Proof.
  intros Hwf Hacc. destruct e; unfold next; simpl.
  - done.
  - unfold getDocument. by destruct (metadataOf s docId).
  - by apply (accounted_createDocument uuid
                (Some (default "Untitled Document" bodyTitle)) now).
  - unfold putTitle. destruct (documentMetadata s !! docId) as [m|]; [|done]. simpl.
    apply (accounted_alter_metas (setLastModified now) m); [done|].
    by apply (accounted_alter_metas (setTitle t) m).
  - unfold deleteDocument. destruct (documents s !! docId); [|done]. simpl.
    by apply (accounted_same s).
  - done.
  - by rewrite socketMessage_state.
  - by apply accounted_connection.
  - by apply accounted_socketClosed.
  - by apply accounted_docUpdated.
Qed.

Lemma accounted_reachable s : reachable s → accounted s.
Proof.
  intros [evs ->].
  cut (wf (run initial evs) ∧ accounted (run initial evs)); [tauto|].
  induction evs as [|e evs IH] using rev_ind.
  - split; [apply wf_initial|]. intros m o c Hm. simpl in Hm.
    by rewrite lookup_empty in Hm.
  - unfold run in *. rewrite foldl_app. simpl. destruct IH as [Hwf Hacc].
    split; [by apply wf_next|by apply accounted_next].
Qed.

(** Every socket carries at most one close listener. *)
Lemma single_handler_next s e :
  wf s →
  (∀ ws w, sockets s !! ws = Some w → (List.length (closeHandlers w) ≤ 1)%nat) →
  ∀ ws w, sockets (next s e) !! ws = Some w → (List.length (closeHandlers w) ≤ 1)%nat.
Proof.
  intros Hwf Hone ws w Hw.
  destruct e;
    [rewrite ?next_message in Hw; simpl in Hw..
    |change (sockets (connection reqUrl uuid now setupThrows s).1 !! ws = Some w) in Hw
    |change (sockets (socketClosed ws0 s) !! ws = Some w) in Hw
    |change (sockets (docUpdated ydoc now s) !! ws = Some w) in Hw];
    try (by eapply Hone).
  - unfold next in Hw. simpl in Hw.
    unfold getDocument in Hw. destruct (metadataOf s docId); by eapply Hone.
  - unfold next in Hw. simpl in Hw.
    unfold putTitle in Hw. destruct (documentMetadata s !! docId); by eapply Hone.
  - unfold next in Hw. simpl in Hw.
    unfold deleteDocument in Hw. destruct (documents s !! docId); by eapply Hone.
  - destruct (connection_socket reqUrl uuid now setupThrows s Hwf)
      as (_ & Hold & m & d & _ & _ & Hnew).
    destruct (decide (ws = nextLoc s)) as [->|Hn].
    + rewrite Hnew in Hw. by injection Hw as <-.
    + rewrite Hold in Hw by done. by eapply Hone.
  - pose proof (socketClosed_handlers ws0 s ws) as Heq. rewrite Hw in Heq.
    destruct (sockets s !! ws) as [w0|] eqn:Hw0; [|done]. simpl in Heq.
    injection Heq as ->. by eapply Hone.
  - unfold docUpdated in Hw. destruct (ydocs s !! ydoc) as [y|]; [|by eapply Hone].
    destruct (updateListeners_frame now (updateObservers y) s)
      as (_ & _ & _ & Hs & _).
    rewrite Hs in Hw. by eapply Hone.
Qed.

Lemma single_handler_reachable s ws w :
  reachable s → sockets s !! ws = Some w → (List.length (closeHandlers w) ≤ 1)%nat.
Proof.
  intros [evs ->]. revert ws w.
  cut (wf (run initial evs)
       ∧ ∀ ws w, sockets (run initial evs) !! ws = Some w →
                 (List.length (closeHandlers w) ≤ 1)%nat); [tauto|].
  induction evs as [|e evs IH] using rev_ind.
  - split; [apply wf_initial|]. intros ws w Hw. simpl in Hw.
    by rewrite lookup_empty in Hw.
  - unfold run in *. rewrite foldl_app. simpl. destruct IH as [Hwf Hone].
    split; [by apply wf_next|by apply single_handler_next].
Qed.

Lemma size_list_to_set_le (l : list string) :
  (size (list_to_set (C := gset string) l) ≤ List.length l)%nat.
Proof.
  induction l as [|x l IH].
  - by rewrite list_to_set_nil, size_empty.
  - rewrite list_to_set_cons. cbn [List.length].
    etrans; [apply Nat.eq_le_incl, size_union_alt|]. rewrite size_singleton.
    pose proof (subseteq_size (list_to_set l ∖ {[x]}) (list_to_set (C := gset string) l)
                  (subseteq_difference_l _ _ _ (reflexivity _))).
    lia.
Qed.

Lemma bind_length_le {A B} (f : A → list B) (l : list A) :
  Forall (λ x, (List.length (f x) ≤ 1)%nat) l →
  (List.length (l ≫= f) ≤ List.length l)%nat.
Proof.
  induction 1 as [|x l Hx _ IH]; [done|].
  rewrite bind_cons, length_app. cbn [List.length]. lia.
Qed.

(** X12: in every reachable state the collaborator count reported for a
    document is at most the number of sockets whose "close" event has not
    fired; so it is 0 when no such socket is left. *)
Theorem count_bounded_by_open_sockets (s : State) (docId : string) (n : nat) :
  reachable s →
  collaboratorCount s docId = Some n →
  (n ≤ openSockets s)%nat.
Proof.
  intros Hr Hn. unfold collaboratorCount in Hn.
  destruct (metadataOf s docId) as [o|] eqn:Ho; [|done]. simpl in Hn.
  injection Hn as <-. apply metadataOf_Some in Ho as (m & _ & Ho).
  pose proof (accounted_reachable s Hr) as Hacc.
  set (open := filter (λ p : loc * Socket, closeEmitted p.2 = false) (sockets s)).
  set (ids := map_to_list open ≫= λ p, (closeHandlers p.2).*1.*2).
  assert (collaborators o ⊆ list_to_set ids) as Hsub.
  { intros c Hc. destruct (Hacc m o c Ho Hc) as (ws & w & docName & Hw & Hem & Hh).
    apply elem_of_list_to_set. apply list_elem_of_bind. exists (ws, w). split.
    - simpl. apply list_elem_of_fmap. exists (m, c). split; [done|].
      apply list_elem_of_fmap. by exists (m, c, docName).
    - apply elem_of_map_to_list. by apply map_lookup_filter_Some. }
  apply subseteq_size in Hsub. etrans; [exact Hsub|].
  etrans; [apply size_list_to_set_le|]. unfold openSockets. fold open.
  rewrite <- (length_map_to_list open).
  apply bind_length_le.
  apply Forall_forall. intros [ws w] Hin. simpl. rewrite !length_fmap.
  apply elem_of_map_to_list, map_lookup_filter_Some in Hin as [Hw _].
  by eapply single_handler_reachable.
Qed.

Lemma count_bounded_by_open_sockets_witness :
  let s := run initial [WsConnection (Some "/a") "u1" 1%Z false;
                        WsConnection (Some "/a") "u2" 2%Z false; WsClose 0] in
  collaboratorCount s "a" = Some 1 ∧ openSockets s = 1 ∧ (1 ≤ openSockets s)%nat.
Proof.
  intros s. split; [vm_compute; reflexivity|]. split; [vm_compute; reflexivity|].
  apply (count_bounded_by_open_sockets s "a" 1).
  - by eexists.
  - vm_compute. reflexivity.
Defined.

End ServerProperties.

(** ** Properties of the editor page *)

Module PageProperties.

Import Presence PresenceFacts.

(** *** The room a page joins and the document the server opens *)

Lemma roomNameOf_nonempty pathname : roomNameOf pathname ≠ "".
Proof. unfold roomNameOf. by case_decide. Qed.

Lemma roomNameOf_no_query pathname :
  ServerProperties.qmark ∉ ServerProperties.chars pathname →
  ServerProperties.qmark ∉ ServerProperties.chars (roomNameOf pathname).
Proof.
  intros Hq. unfold roomNameOf. case_decide as Hd.
  - vm_compute. intros Hin.
    repeat (apply elem_of_cons in Hin as [Hin|Hin]; [done|]).
    by apply elem_of_nil in Hin.
  - destruct pathname as [|c rest]; [done|]. simpl in *.
    intros Hin. apply Hq. by right.
Qed.

(** X13: the room name the page derives from [window.location.pathname] is
    the document name the server derives from a request for
    ["/" + roomName], with or without a query string; this includes the
    page at the root path, whose room is "default-room". *)
Theorem room_name_is_document_name (pathname query : string) :
  ServerProperties.qmark ∉ ServerProperties.chars pathname →
  Server.docNameOf (Some (String "/" (roomNameOf pathname))) = roomNameOf pathname
  ∧ Server.docNameOf (Some (String "/" (roomNameOf pathname ++ String "?" query)))
    = roomNameOf pathname.
Proof.
  intros Hq. pose proof (roomNameOf_nonempty pathname) as Hne.
  apply roomNameOf_no_query in Hq.
  unfold Server.docNameOf. simpl.
  rewrite ServerProperties.beforeQuery_app by done.
  rewrite ServerProperties.beforeQuery_id by done.
  by case_decide.
Qed.

Lemma room_name_is_document_name_witness :
  Server.docNameOf (Some "/") = "default-room"
  ∧ roomNameOf "/" = "default-room"
  ∧ Server.docNameOf (Some (String "/" (roomNameOf "/doc/abc" ++ String "?" "x=1")))
    = "doc/abc".
Proof.
  split; [reflexivity|]. split; [reflexivity|].
  refine (proj2 (room_name_is_document_name "/doc/abc" "x=1" _)).
  vm_compute. intros Hin. repeat (apply elem_of_cons in Hin as [Hin|Hin]; [done|]).
  by apply elem_of_nil in Hin.
Defined.

(** *** The user count and the avatars *)

(** X14: the number next to the users icon is the number of users the page
    keeps avatars for plus the number of awareness states it skips, which
    are the observer's own state and the states without a [user] field; so
    the avatars never outnumber the count. *)
Theorem user_count_accounting
    (self : nat) (states : gmap nat AwarenessState) (prev : View) :
  let v := onChange self states prev in
  let skipped := filter (λ p : nat * AwarenessState, p.1 = self ∨ user p.2 = None)
                        states in
  userCount v = size (connectedUsers v) + size skipped
  ∧ (size (connectedUsers v) ≤ userCount v)%nat.
Proof.
  intros v skipped.
  set (P := λ p : nat * AwarenessState, p.1 ≠ self ∧ is_Some (user p.2)).
  assert (size (connectedUsers v) = size (filter P states)) as Hsize.
  { rewrite <- !(size_dom (D := gset nat)). f_equal. apply set_eq. intros c.
    rewrite !elem_of_dom. subst v. rewrite onChange_lookup.
    unfold is_Some. setoid_rewrite map_lookup_filter_Some.
    destruct (states !! c) as [st|] eqn:Hst; simpl.
    - unfold entryOf, P. simpl. destruct (user st) as [u|] eqn:Hu.
      + case_decide as Hd.
        * split; [|by eauto]. intros _. exists st. rewrite Hu. by eauto.
        * split; [by intros [? ?]|]. intros (? & _ & Hc & _). by destruct Hd.
      + split; [by intros [? ?]|]. intros (st' & [= <-] & _ & [u Hu']). congruence.
    - split; [by intros [? ?]|]. by intros (? & ? & _). }
  assert (skipped = filter (λ p, ¬ P p) states) as Hskip.
  { subst skipped. apply map_filter_ext. intros c st _. unfold P. simpl.
    split.
    - intros [->|Hn] [Hc Hs]; [done|]. rewrite Hn in Hs. by destruct Hs.
    - intros Hnot. destruct (decide (c = self)); [by left|]. right.
      destruct (user st) eqn:Hu; [|done]. destruct Hnot. split; [done|]. by eexists. }
  assert (userCount v = size (connectedUsers v) + size skipped) as Heq.
  { rewrite Hsize, Hskip.
    rewrite <- map_size_disj_union by apply map_disjoint_filter_complement.
    by rewrite map_filter_union_complement. }
  split; [done|]. rewrite Heq. apply Nat.le_add_r.
Qed.

(** X15: the three avatars and the "+N" badge together stand for every
    user the page keeps: there are never more than three avatars, the badge
    is drawn exactly when some user has no avatar, and its number is how
    many have none. *)
Theorem avatars_and_badge_cover_users (v : View) :
  (List.length (avatars v) ≤ 3)%nat
  ∧ List.length (avatars v) + default 0 (badge v) = size (connectedUsers v)
  ∧ (badge v = None ↔ List.length (avatars v) = size (connectedUsers v))
  ∧ avatars v `prefix_of` (presenceEntries v).*2.
Proof.
  unfold avatars, badge, presenceEntries.
  pose proof (length_map_to_list (connectedUsers v)) as Hlen.
  rewrite length_take, length_fmap, Hlen.
  split_and!.
  - apply Nat.le_min_l.
  - case_decide; cbn [default from_option id]; lia.
  - case_decide; split; intros H'; try done; lia.
  - apply prefix_take.
Qed.

(** *** The two awareness listeners *)

Lemma visit_fold_lookup self (states : gmap nat AwarenessState) c :
  map_fold (visit self) ∅ states !! c = states !! c ≫= entryOf self c.
Proof. apply (onChange_lookup self states (mkView ∅ 0) c). Qed.

(** X16: the array the Editor component's listener hands to
    [onUsersChange] holds the same users, with the same multiplicity, as
    the values of the map the Home component's listener stores, for the same
    awareness states and observer. *)
Theorem editor_users_match_connected_users
    (self : nat) (states : gmap nat AwarenessState) (prev : View) :
  onChangeEditor self states ≡ₚ (presenceEntries (onChange self states prev)).*2
  ∧ List.length (onChangeEditor self states)
    = size (connectedUsers (onChange self states prev)).
Proof.
  assert (onChangeEditor self states
          ≡ₚ (presenceEntries (onChange self states prev)).*2) as Hperm.
  { unfold onChangeEditor, presenceEntries, onChange. simpl.
    induction states as [|i x m Hi Hfirst IH] using map_first_key_ind.
    - by rewrite !map_fold_empty, map_to_list_empty.
    - rewrite !map_fold_insert_first_key by done.
      pose proof (visit_fold_lookup self m i) as Hnone. rewrite Hi in Hnone.
      simpl in Hnone. unfold visitPush, visit.
      destruct (user x) as [u|]; [|done]. case_decide; [|done].
      rewrite map_to_list_insert by done. rewrite fmap_cons. simpl.
      rewrite <- IH. symmetry. apply Permutation_cons_append. }
  split; [done|]. rewrite Hperm. unfold presenceEntries.
  by rewrite length_fmap, length_map_to_list.
Qed.

End PageProperties.
